(** * X Profile Notes: note store, score model, log pipeline and log bridge

    A shallow embedding of
      - [src/content/content.js]  (the note store: normalizeUsername,
        migrateNoteFormat, loadNotes, saveNote, deleteScoreAtIndex,
        deleteNote, getNote, hasNote, getScores, getAverageScore; the
        page scan: findUsernameElements, processPage, injectButton,
        debouncedProcess, the observers; createNoteButton,
        updateAllIndicators, formatScoreDate),
      - [src/shared/logger.js]    (xpnLog, flushLogs, xpnGetLogs,
        xpnClearLogs and the log request listener),
      - the popup                 (loadNotes, editNote, deleteNote,
        importNotes, exportNotes, formatDate),
      - the test harness helper   (getExtensionLogs),
    and the properties of the specification that concern them.

    Conventions of the embedding.
      - A JavaScript object used as a dictionary ([notesCache]) is the
        [gmap string NoteData] of its own keys.  A lookup at the name of a
        member of [Object.prototype] that is not an own key finds the
        inherited member in the code and nothing in the model; statements
        that depend on it exclude these names ([inherited]).
      - A string is the sequence of its UTF-8 bytes.  [trim] strips every
        code point of the ECMAScript classes WhiteSpace and
        LineTerminator; [toLowerCase] acts on the ASCII letters and
        leaves other letters as they are.
      - A field that may be missing on an object is an [option]; a field
        that may also hold [null] is an [option (option _)].
      - [Date.now()] readings, and whether a [chrome.storage] call
        succeeds, are inputs of each call ([Env]).
      - Timers live on a logical clock: [setTimeout f d] at time [t] is a
        task due at [t + d], which runs at that time.
      - Console output, DOM refresh ([updateAllIndicators]) and the text of
        diagnostics are not part of the state. *)

From Stdlib Require Import ZArith QArith Qcanon Qround Lia Lqa Ascii Floats.
From stdpp Require Import gmap strings list pretty.

Local Open Scope Z_scope.

(* ===================================================================== *)
(** ** JavaScript string primitives                                       *)
(* ===================================================================== *)

Module JsString.

(** [String.prototype.toLowerCase], one character. *)
Definition lower_ascii (c : ascii) : ascii :=
  let n := N_of_ascii c in
  if ((65 <=? n) && (n <=? 90))%N then ascii_of_N (n + 32) else c.

Fixpoint toLowerCase (s : string) : string :=
  match s with
  | EmptyString => EmptyString
  | String c r => String (lower_ascii c) (toLowerCase r)
  end.

(** [s.startsWith(p)]. *)
Fixpoint startsWith (p s : string) : bool :=
  match p, s with
  | EmptyString, _ => true
  | String a p', String b s' => if Ascii.eqb a b then startsWith p' s' else false
  | String _ _, EmptyString => false
  end.

Fixpoint drop (n : nat) (s : string) : string :=
  match n, s with
  | O, _ => s
  | S n', String _ r => drop n' r
  | S _, EmptyString => EmptyString
  end.

(** [s.replace(pat, rep)] with a string pattern: the first occurrence of
    [pat] only, scanning from the left. *)
Fixpoint replace (pat rep s : string) : string :=
  if startsWith pat s then rep +:+ drop (String.length pat) s
  else match s with
       | EmptyString => EmptyString
       | String c r => String c (replace pat rep r)
       end.

(** [String.prototype.trim] strips the code points of the ECMAScript
    classes WhiteSpace and LineTerminator.  On the UTF-8 bytes of a string
    these are one, two or three bytes long.  One byte: TAB, LF, VT, FF,
    CR, SPACE. *)
Definition is_space (c : ascii) : bool :=
  let n := N_of_ascii c in
  (((9 <=? n) && (n <=? 13)) || (n =? 32))%N.

(** Two bytes: U+00A0 (C2 A0). *)
Definition is_space2 (a b : ascii) : bool :=
  ((N_of_ascii a =? 194) && (N_of_ascii b =? 160))%N.

(** Three bytes: U+1680 (E1 9A 80); U+2000 to U+200A, U+2028, U+2029 and
    U+202F (E2 80 80..8A, A8, A9, AF); U+205F (E2 81 9F); U+3000
    (E3 80 80); U+FEFF (EF BB BF). *)
Definition is_space3 (a b c : ascii) : bool :=
  let x := N_of_ascii a in
  let y := N_of_ascii b in
  let z := N_of_ascii c in
  (((x =? 225) && (y =? 154) && (z =? 128))
   || ((x =? 226) && (y =? 128)
       && (((128 <=? z) && (z <=? 138)) || (z =? 168) || (z =? 169) || (z =? 175)))
   || ((x =? 226) && (y =? 129) && (z =? 159))
   || ((x =? 227) && (y =? 128) && (z =? 128))
   || ((x =? 239) && (y =? 187) && (z =? 191)))%N.

(** Removal of the leading white space; [p2] and [p3] recognise the two-
    and three-byte code points in the order the bytes are met. *)
Fixpoint strip (p2 : ascii → ascii → bool) (p3 : ascii → ascii → ascii → bool)
    (s : string) : string :=
  match s with
  | EmptyString => EmptyString
  | String c r =>
      if is_space c then strip p2 p3 r
      else
        match r with
        | String c2 r2 =>
            if p2 c c2 then strip p2 p3 r2
            else
              match r2 with
              | String c3 r3 => if p3 c c2 c3 then strip p2 p3 r3 else s
              | EmptyString => s
              end
        | EmptyString => s
        end
  end.

Definition trimStart (s : string) : string := strip is_space2 is_space3 s.

(** From the end the bytes of a code point are met last byte first. *)
Definition trimEnd (s : string) : string :=
  String.rev
    (strip (fun a b => is_space2 b a) (fun a b c => is_space3 c b a)
       (String.rev s)).

Definition trim (s : string) : string := trimEnd (trimStart s).

(** Number of occurrences of a character. *)
Fixpoint count (c : ascii) (s : string) : nat :=
  match s with
  | EmptyString => O
  | String a r => (if Ascii.eqb a c then 1 else 0) + count c r
  end.

End JsString.

(* ===================================================================== *)
(** ** content.js: normalizeUsername                                      *)
(* ===================================================================== *)

(** [username.toLowerCase().replace('@', '')] *)
Definition normalizeUsername (username : string) : string :=
  JsString.replace "@" "" (JsString.toLowerCase username).

(* ===================================================================== *)
(** ** content.js: the note record and the note collection                *)
(* ===================================================================== *)

(** One entry of [scores]: [{ value, timestamp }]. *)
Record ScoreSample := mkSample { value : Z; timestamp : Z }.

(** A value of the [notes] dictionary.  Current records carry [note],
    [scores], [createdAt], [updatedAt]; legacy records carry a nullable
    [score] and no [scores]. *)
Record NoteData := mkNote {
  note      : option string;
  score     : option (option Z);
  scores    : option (list ScoreSample);
  createdAt : option Z;
  updatedAt : option Z
}.

Definition set_note (v : string) (d : NoteData) : NoteData :=
  mkNote (Some v) (score d) (scores d) (createdAt d) (updatedAt d).
Definition set_scores (v : list ScoreSample) (d : NoteData) : NoteData :=
  mkNote (note d) (score d) (Some v) (createdAt d) (updatedAt d).
Definition set_updatedAt (v : Z) (d : NoteData) : NoteData :=
  mkNote (note d) (score d) (scores d) (createdAt d) (Some v).
Definition delete_score (d : NoteData) : NoteData :=
  mkNote (note d) None (scores d) (createdAt d) (updatedAt d).

(** The array behind [noteData.scores] once the field is known to exist. *)
Definition scores_list (d : NoteData) : list ScoreSample :=
  default [] (scores d).

(** [a || b] on a possibly missing number: [undefined] and [0] are falsy. *)
Definition num_or (a : option Z) (b : Z) : Z :=
  match a with
  | Some t => if t =? 0 then b else t
  | None => b
  end.

(** [migrateNoteFormat(noteData)]; [now] is the reading of [Date.now()]
    taken when [updatedAt] is falsy. *)
Definition migrateNoteFormat (now : Z) (noteData : NoteData) : NoteData :=
  let d1 :=
    match score noteData, scores noteData with
    | Some sc, None =>
        delete_score
          (set_scores
             match sc with
             | Some v => [mkSample v (num_or (updatedAt noteData) now)]
             | None => []
             end
             noteData)
    | _, _ => noteData
    end in
  match scores d1 with
  | None => set_scores [] d1
  | Some _ => d1
  end.

(** [chrome.storage.local], restricted to the [notes] key, with the number
    of [set] calls made so far. *)
Record ChromeStorage := mkStorage {
  notes_key : option (gmap string NoteData);
  set_calls : nat
}.

(** [await chrome.storage.local.set({ notes: v })]: [ok = false] is a
    rejected promise (quota, permission), which leaves the key as it was. *)
Definition storage_set (ok : bool) (v : gmap string NoteData)
    (st : ChromeStorage) : bool * ChromeStorage :=
  if ok then (true, mkStorage (Some v) (S (set_calls st)))
  else (false, mkStorage (notes_key st) (S (set_calls st))).

(** The content script's state: the in-memory cache and the storage. *)
Record ContentState := mkContent {
  notesCache : gmap string NoteData;
  storage    : ChromeStorage
}.

(** What one call observes of its environment. *)
Record Env := mkEnv {
  Date_now         : Z;     (* [Date.now()] in the function itself *)
  Date_now_migrate : Z;     (* [Date.now()] inside [migrateNoteFormat] *)
  set_ok           : bool   (* does [chrome.storage.local.set] succeed *)
}.

(** [score !== null && score >= 1 && score <= 5] *)
Definition score_accepted (score : option Z) : option Z :=
  match score with
  | Some v => if (1 <=? v) && (v <=? 5) then Some v else None
  | None => None
  end.

(** [arr.slice(-n)]: the last [n] elements. *)
Definition slice_last {A} (n : nat) (l : list A) : list A :=
  drop (length l - n) l.

(** [noteData.note !== '' || noteData.scores.length > 0] *)
Definition hasContent (d : NoteData) : bool :=
  negb (bool_decide (note d = Some "")) || (0 <? length (scores_list d))%nat.

(** [saveNote(username, noteText, score = null)].  The result is the
    function's return value and the state it leaves. *)
Definition saveNote (env : Env) (username noteText : string)
    (score : option Z) (st : ContentState) : bool * ContentState :=
  let nUsername := normalizeUsername username in
  let now := Date_now env in
  (* Ensure entry exists with migrated format *)
  let e0 :=
    match notesCache st !! nUsername with
    | None => mkNote (Some "") None (Some []) (Some now) (Some now)
    | Some d => migrateNoteFormat (Date_now_migrate env) d
    end in
  (* Update note text *)
  let e1 :=
    set_note (if bool_decide (noteText = "") then "" else JsString.trim noteText) e0 in
  (* Add new score to array if provided; keep only last 5 scores *)
  let e2 :=
    match score_accepted score with
    | Some v =>
        let pushed := scores_list e1 ++ [mkSample v now] in
        set_scores
          (if (5 <? length pushed)%nat then slice_last 5 pushed else pushed) e1
    | None => e1
    end in
  let e3 := set_updatedAt now e2 in
  let cache' :=
    if hasContent e3 then <[nUsername := e3]> (notesCache st)
    else delete nUsername (notesCache st) in
  let '(ok, storage') := storage_set (set_ok env) cache' (storage st) in
  (ok, mkContent cache' storage').

(** [arr[index]] for a number [index]: only a non-negative integer below
    the length names an element. *)
Definition js_nth {A} (l : list A) (index : Z) : option A :=
  if index <? 0 then None else l !! Z.to_nat index.

(** [deleteScoreAtIndex(username, index)].  A sample is an object, hence
    truthy whenever it exists. *)
Definition deleteScoreAtIndex (env : Env) (username : string) (index : Z)
    (st : ContentState) : bool * ContentState :=
  let nUsername := normalizeUsername username in
  match notesCache st !! nUsername with
  | None => (false, st)
  | Some noteData =>
      match scores noteData with
      | None => (false, st)
      | Some l =>
          match js_nth l index with
          | None => (false, st)
          | Some _ =>
              (* scores.splice(index, 1) *)
              let d1 := set_scores (delete (Z.to_nat index) l) noteData in
              let d2 := set_updatedAt (Date_now env) d1 in
              let cache' :=
                if hasContent d2 then <[nUsername := d2]> (notesCache st)
                else delete nUsername (notesCache st) in
              let '(ok, storage') :=
                storage_set (set_ok env) cache' (storage st) in
              (ok, mkContent cache' storage')
          end
      end
  end.

(** JavaScript numbers in [getAverageScore] are taken as exact rationals. *)
Definition Z2Qc (z : Z) : Qc := Q2Qc (inject_Z z).

(** [Math.round]: the nearest integer, a tie going up. *)
Definition Math_round (x : Qc) : Z := Qfloor (x + Z2Qc 1 / Z2Qc 2)%Qc.

(** [getAverageScore(username)]; [None] is [null]. *)
Definition getAverageScore (username : string)
    (cache : gmap string NoteData) : option Qc :=
  let nUsername := normalizeUsername username in
  match cache !! nUsername with
  | None => None
  | Some noteData =>
      match scores noteData with
      | None => None
      | Some l =>
          if (length l =? 0)%nat then None
          else
            let sum := fold_left (fun acc s => acc + value s) l 0 in
            Some (Z2Qc (Math_round (Z2Qc sum / Z2Qc (Z.of_nat (length l)) * Z2Qc 10))
                  / Z2Qc 10)%Qc
      end
  end.




(** A fresh context: empty cache, nothing persisted. *)
Definition initial_content : ContentState :=
  mkContent ∅ (mkStorage None 0).

(* ===================================================================== *)
(** ** logger.js: the log pipeline                                        *)
(* ===================================================================== *)

Module Logger.

Definition XPN_MAX_LOGS : nat := 1000.

(** Delay of the flush timer, [setTimeout(flushLogs, 100)]. *)
Definition FLUSH_DELAY : Z := 100.

(** A stored entry [{ t, s, l, m }]. *)
Record LogEntry := mkEntry { t : Z; s : string; l : string; m : string }.

(** An argument of [xpnLog], as far as formatting tells them apart. *)
Inductive LogArg :=
| ArgNull
| ArgUndefined
| ArgError (name message : string)
| ArgObject (json : option string) (str : string)
    (* [JSON.stringify(arg)], [None] when it throws, and [String(arg)] *)
| ArgOther (str : string).

Definition format_arg (arg : LogArg) : string :=
  match arg with
  | ArgNull => "null"
  | ArgUndefined => "undefined"
  | ArgError name message => name +:+ ": " +:+ message
  | ArgObject (Some json) _ => json
  | ArgObject None str => str
  | ArgOther str => str
  end.

(** [parts.join(sep)] *)
Fixpoint join (sep : string) (parts : list string) : string :=
  match parts with
  | [] => ""
  | [x] => x
  | x :: rest => x +:+ sep +:+ join sep rest
  end.

(** The module's variables.  [flushTimeout] holds the due time of the
    armed timer, [None] for [null]: the module never has two flush timers
    armed at once, since it arms one only while [flushTimeout] is null. *)
Record LoggerState := mkLogger {
  logQueue     : list LogEntry;
  flushTimeout : option Z;
  isFlushing   : bool
}.

Definition initial_logger : LoggerState := mkLogger [] None false.

(** One call [xpnLog(source, level, ...args)] made at time [now]. *)
Record LogCall := mkCall {
  call_time : Z; call_source : string; call_level : string;
  call_args : list LogArg
}.

Definition entry_of (c : LogCall) : LogEntry :=
  mkEntry (call_time c) (call_source c) (call_level c)
          (join " " (map format_arg (call_args c))).

Definition xpnLog (c : LogCall) (st : LoggerState) : LoggerState :=
  (* Queue the log entry *)
  let queue := logQueue st ++ [entry_of c] in
  (* if (!flushTimeout) flushTimeout = setTimeout(flushLogs, 100) *)
  match flushTimeout st with
  | None => mkLogger queue (Some (call_time c + FLUSH_DELAY)) (isFlushing st)
  | Some due => mkLogger queue (Some due) (isFlushing st)
  end.

Definition xpnLogs (calls : list LogCall) (st : LoggerState) : LoggerState :=
  fold_left (fun acc c => xpnLog c acc) calls st.

(** [chrome.storage.local] restricted to the log key. *)
Definition LogStorage : Type := option (list LogEntry).

(** [flushLogs], up to its first [await]: the batch taken from the queue,
    or [None] on the early return. *)
Definition flushLogs_begin (st : LoggerState)
    : option (list LogEntry) * LoggerState :=
  if (length (logQueue st) =? 0)%nat || isFlushing st
  then (None, mkLogger (logQueue st) None (isFlushing st))
  else (Some (logQueue st), mkLogger [] None true).

(** [combined.length > XPN_MAX_LOGS ? combined.slice(-XPN_MAX_LOGS) : combined] *)
Definition trim_logs (combined : list LogEntry) : list LogEntry :=
  if (XPN_MAX_LOGS <? length combined)%nat
  then slice_last XPN_MAX_LOGS combined
  else combined.

(** The [try] block: read, append, trim, write back.  A failed [get] or
    [set] throws and leaves the stored value as it was. *)
Definition flushLogs_try (get_ok set_ok : bool) (toFlush : list LogEntry)
    (stor : LogStorage) : LogStorage :=
  if get_ok then
    let existing := default [] stor in
    let combined := existing ++ toFlush in
    let trimmed := trim_logs combined in
    if set_ok then Some trimmed else stor
  else stor.

(** The [finally] block, run at time [now]. *)
Definition flushLogs_finally (now : Z) (st : LoggerState) : LoggerState :=
  if (0 <? length (logQueue st))%nat && negb (bool_decide (is_Some (flushTimeout st)))
  then mkLogger (logQueue st) (Some (now + FLUSH_DELAY)) false
  else mkLogger (logQueue st) (flushTimeout st) false.

(** What the context does while a flush awaits the storage: more
    [xpnLog] calls, and its own timer firing, which re-enters [flushLogs]. *)
Inductive Interleaved :=
| ILog (c : LogCall)
| ITimer.

Definition interleave (ev : Interleaved) (st : LoggerState) : LoggerState :=
  match ev with
  | ILog c => xpnLog c st
  | ITimer => snd (flushLogs_begin st)
  end.

Record FlushEnv := mkFlushEnv {
  get_ok      : bool;
  set_ok      : bool;
  during      : list Interleaved;   (* between the drain and [finally] *)
  finish_time : Z                   (* when [finally] runs *)
}.

(** A whole call of [flushLogs]: the early return, or the drain, the
    storage round trip with what the context does meanwhile, and
    [finally]. *)
Definition flushLogs (env : FlushEnv) (st : LoggerState) (stor : LogStorage)
    : LoggerState * LogStorage :=
  match flushLogs_begin st with
  | (None, st') => (st', stor)
  | (Some toFlush, st1) =>
      let stor' := flushLogs_try (get_ok env) (set_ok env) toFlush stor in
      let st2 := fold_left (fun acc ev => interleave ev acc) (during env) st1 in
      (flushLogs_finally (finish_time env) st2, stor')
  end.

End Logger.

(* ===================================================================== *)
(** ** logger.js: the flush timer on the clock                            *)
(* ===================================================================== *)

Module LogTimer.

(** The module's variables, the stored list, and how many times the timer
    has run [flushLogs]. *)
Record Pipeline := mkPipeline {
  logger  : Logger.LoggerState;
  stored  : Logger.LogStorage;
  flushes : nat
}.

(** The timer's callback runs once the timer is due: [fire env now p] is
    the pipeline at time [now]; [env due] is the environment of the flush
    started by the timer due at [due]. *)
Definition fire (env : Z → Logger.FlushEnv) (now : Z) (p : Pipeline) : Pipeline :=
  match Logger.flushTimeout (logger p) with
  | Some due =>
      if due <=? now then
        let '(st', stor') := Logger.flushLogs (env due) (logger p) (stored p) in
        mkPipeline st' stor' (S (flushes p))
      else p
  | None => p
  end.

(** A call of [xpnLog] at its time, after the timer has fired if due. *)
Definition log_at (env : Z → Logger.FlushEnv) (c : Logger.LogCall)
    (p : Pipeline) : Pipeline :=
  let p1 := fire env (Logger.call_time c) p in
  mkPipeline (Logger.xpnLog c (logger p1)) (stored p1) (flushes p1).

Definition logs_at (env : Z → Logger.FlushEnv) (calls : list Logger.LogCall)
    (p : Pipeline) : Pipeline :=
  fold_left (fun acc c => log_at env c acc) calls p.

(** A storage round trip that succeeds and ends before anything else is
    logged. *)
Definition prompt_flush (due : Z) : Logger.FlushEnv :=
  Logger.mkFlushEnv true true [] due.

End LogTimer.

(* ===================================================================== *)
(** ** The test harness: getExtensionLogs over the event bridge           *)
(* ===================================================================== *)

Module Bridge.

(** [setTimeout(() => resolve('[]'), 2000)] *)
Definition TIMEOUT_MS : Z := 2000.

(** What can run in the page after the request was dispatched. *)
Inductive PageTask :=
| TimerFired                          (* the 2 s timer's callback *)
| ResponseEvent (detail : string).    (* a [__xpn_logs_response__] event *)

(** The promise built in [page.evaluate], and whether the [once]
    listener is still attached. *)
Record Request := mkRequest {
  settled   : option string;
  listening : bool
}.

(** [resolve(v)]: only the first call settles the promise. *)
Definition resolve (v : string) (r : Request) : Request :=
  match settled r with
  | None => mkRequest (Some v) (listening r)
  | Some _ => r
  end.

Definition run_task (task : PageTask) (r : Request) : Request :=
  match task with
  | TimerFired => resolve "[]" r
  | ResponseEvent detail =>
      if listening r then resolve detail (mkRequest (settled r) false) else r
  end.

(** The content script's standing listener, when there is one: it answers
    a request after [latency] ms (the time [xpnGetLogs] takes) with the
    serialized logs. *)
Record Responder := mkResponder { latency : Z; payload : string }.

(** Tasks in the page after the executor ran at time [t0], each with its
    due time.  Without a responder the request event has no listener and
    only the timer remains. *)
Definition agenda (responder : option Responder) (t0 : Z)
    : list (Z * PageTask) :=
  match responder with
  | None => [(t0 + TIMEOUT_MS, TimerFired)]
  | Some r =>
      if latency r <? TIMEOUT_MS
      then [(t0 + latency r, ResponseEvent (payload r)); (t0 + TIMEOUT_MS, TimerFired)]
      else [(t0 + TIMEOUT_MS, TimerFired); (t0 + latency r, ResponseEvent (payload r))]
  end.

(** The request once every task due by [time] has run. *)
Definition run_until (time : Z) (tasks : list (Z * PageTask)) (r : Request)
    : Request :=
  fold_left (fun acc '(due, task) => if due <=? time then run_task task acc else acc)
            tasks r.

Section GetExtensionLogs.

(** [JSON.parse] on a log array; [None] when it throws. *)
Variable JSON_parse : string → option (list Logger.LogEntry).

(** [getExtensionLogs()], started at [t0] and observed at [time]:
    [None] while the promise is pending, else the value returned. *)
Definition getExtensionLogs (responder : option Responder) (t0 time : Z)
    : option (list Logger.LogEntry) :=
  (* listener attached, request dispatched, timer armed *)
  let r0 := mkRequest None true in
  match settled (run_until time (agenda responder t0) r0) with
  | None => None
  | Some logs =>
      match JSON_parse logs with
      | Some parsed => Some parsed
      | None => Some []          (* catch (e) { return []; } *)
      end
  end.

End GetExtensionLogs.

(** The least [JSON.parse] the harness needs: it reads the empty array and
    throws on anything else. *)
Definition parse_empty_array (text : string) : option (list Logger.LogEntry) :=
  if String.eqb text "[]" then Some [] else None.

End Bridge.

(* ===================================================================== *)
(** ** getAverageScore in double precision                                *)
(* ===================================================================== *)

(** [getAverageScore] computes on IEEE 754 doubles.  This module states
    the same computation on Rocq's binary64 numbers, to compare it with
    the exact one on the score lists the store can hold. *)
Module Double.

Definition double_of_Z (z : Z) : float := PrimFloat.of_uint63 (Uint63.of_Z z).

(** The rational a finite double stands for. *)
Definition double_value (f : float) : option Q :=
  match Prim2SF f with
  | S754_zero _ => Some 0%Q
  | S754_finite sign m e =>
      Some ((if sign then -1 else 1) * inject_Z (Zpos m) * (2 ^ e))%Q
  | _ => None
  end.

(** [Math.round] on a double: exact on the value it stands for. *)
Definition Math_round_double (f : float) : float :=
  match double_value f with
  | Some q => double_of_Z (Qfloor (q + (1#2)))
  | None => f
  end.

(** The arithmetic of [getAverageScore] on the sample values. *)
Definition average_double (values : list Z) : float :=
  let sum := fold_left (fun acc v => acc + double_of_Z v)%float values 0%float in
  (Math_round_double (sum / double_of_Z (Z.of_nat (length values)) * 10) / 10)%float.

(** The number of tenths the exact computation rounds to. *)
Definition tenths_exact (values : list Z) : Z :=
  let sum := fold_left Z.add values 0 in
  Math_round (Z2Qc sum / Z2Qc (Z.of_nat (length values)) * Z2Qc 10)%Qc.

Definition agrees (values : list Z) : bool :=
  PrimFloat.eqb (average_double values)
                (double_of_Z (tenths_exact values) / 10)%float.

(** Every list of [n] scores within 1..5. *)
Fixpoint score_lists (n : nat) : list (list Z) :=
  match n with
  | O => [[]]
  | S k => flat_map (fun l => map (fun v => v :: l) [1; 2; 3; 4; 5]) (score_lists k)
  end.

End Double.

(* ===================================================================== *)
(** ** Vocabulary of the statements                                       *)
(* ===================================================================== *)

(** The record [saveNote] builds for a user, from the record found. *)
Definition entry_after (env : Env) (noteText : string) (sc : option Z)
    (found : option NoteData) : NoteData :=
  let e0 :=
    match found with
    | None => mkNote (Some "") None (Some []) (Some (Date_now env)) (Some (Date_now env))
    | Some d => migrateNoteFormat (Date_now_migrate env) d
    end in
  let e1 :=
    set_note (if bool_decide (noteText = "") then "" else JsString.trim noteText) e0 in
  let e2 :=
    match score_accepted sc with
    | Some v =>
        let pushed := scores_list e1 ++ [mkSample v (Date_now env)] in
        set_scores
          (if (5 <? length pushed)%nat then slice_last 5 pushed else pushed) e1
    | None => e1
    end in
  set_updatedAt (Date_now env) e2.





(** The cap applied after a push. *)
Definition keep_last_five (l : list ScoreSample) : list ScoreSample :=
  if (5 <? length l)%nat then slice_last 5 l else l.

(** [scores.reduce((acc, s) => acc + s.value, 0)] *)
Definition sum_values (l : list ScoreSample) : Z :=
  fold_left (fun acc s => acc + value s) l 0.

(** The arithmetic mean of the sample values. *)
Definition mean (l : list ScoreSample) : Qc :=
  (Z2Qc (sum_values l) / Z2Qc (Z.of_nat (length l)))%Qc.

(* ===================================================================== *)
(** ** content.js: the other readers and writers of the collection        *)
(* ===================================================================== *)

(** [getScores(username)]: [noteData?.scores || []]. *)
Definition getScores (username : string)
    (cache : gmap string NoteData) : list ScoreSample :=
  match cache !! normalizeUsername username with
  | Some noteData => default [] (scores noteData)
  | None => []
  end.

(** [deleteNote(username)]: the key is computed by the same expression as
    in [normalizeUsername]; the storage is written whether or not the
    record existed. *)
Definition deleteNote (env : Env) (username : string)
    (st : ContentState) : bool * ContentState :=
  let normalizedUsername :=
    JsString.replace "@" "" (JsString.toLowerCase username) in
  let cache' := delete normalizedUsername (notesCache st) in
  let '(ok, storage') := storage_set (set_ok env) cache' (storage st) in
  (ok, mkContent cache' storage').

(** [notesCache] is a plain object.  At the name of a member of
    [Object.prototype] that is not a key of the object itself,
    [notesCache[key]] finds the inherited member, which is truthy.  The
    lookups of this development are lookups of own keys: they are what
    the code does at every key that is not one of these names. *)
Definition Object_prototype_members : list string :=
  ["constructor"; "__proto__"; "__defineGetter__"; "__defineSetter__";
   "__lookupGetter__"; "__lookupSetter__"; "hasOwnProperty";
   "isPrototypeOf"; "propertyIsEnumerable"; "toLocaleString"; "toString";
   "valueOf"].

Definition inherited (key : string) : bool :=
  existsb (String.eqb key) Object_prototype_members.

(** [getNote(username)].  [migrateNoteFormat] changes the cached object
    itself, so the cache is part of the result; [now] is the reading of
    [Date.now()] inside the migration. *)
Definition getNote (now : Z) (username : string)
    (cache : gmap string NoteData)
    : option NoteData * gmap string NoteData :=
  let nUsername := normalizeUsername username in
  match cache !! nUsername with
  | None => (None, cache)
  | Some noteData =>
      let migrated := migrateNoteFormat now noteData in
      (Some migrated, <[nUsername := migrated]> cache)
  end.

(** Truthiness of a possibly missing string: [undefined] and [''] are
    falsy. *)
Definition string_truthy (s : option string) : bool :=
  match s with
  | Some v => negb (bool_decide (v = ""))
  | None => false
  end.

(** [hasNote(username)]:
    [!!(data && (data.note || (data.scores && data.scores.length > 0)))]. *)
Definition hasNote (username : string) (cache : gmap string NoteData) : bool :=
  match cache !! normalizeUsername username with
  | None => false
  | Some data =>
      string_truthy (note data)
      || match scores data with
         | Some l => (0 <? length l)%nat
         | None => false
         end
  end.

(** [noteData.score !== undefined && !noteData.scores], the test that
    [loadNotes] makes before it migrates a record. *)
Definition is_legacy (d : NoteData) : bool :=
  match score d, scores d with
  | Some _, None => true
  | _, _ => false
  end.

(** The loop of [loadNotes] over the keys of the cache; [clock k] is the
    reading of [Date.now()] while the record under [k] is migrated. *)
Definition migrate_all (clock : string → Z)
    (cache : gmap string NoteData) : gmap string NoteData :=
  map_imap (fun k d =>
              Some (if is_legacy d then migrateNoteFormat (clock k) d else d))
           cache.

(** [needsSave]: some record passed the test. *)
Definition needs_save (cache : gmap string NoteData) : bool :=
  negb (bool_decide (map_Forall (fun _ d => is_legacy d = false) cache)).

(** What [loadNotes] observes: whether [get] and [set] succeed, and the
    clock. *)
Record LoadEnv := mkLoadEnv {
  load_get_ok : bool;
  load_set_ok : bool;
  load_clock  : string → Z
}.

(** [loadNotes()]: the value returned and the state left.  A failed [get]
    leaves the cache as it was; a failed [set] comes after the cache has
    been replaced and migrated.  Both return [{}]. *)
Definition loadNotes (env : LoadEnv) (st : ContentState)
    : gmap string NoteData * ContentState :=
  if load_get_ok env then
    let cache := migrate_all (load_clock env) (default ∅ (notes_key (storage st))) in
    if needs_save (default ∅ (notes_key (storage st))) then
      let '(ok, storage') := storage_set (load_set_ok env) cache (storage st) in
      if ok then (cache, mkContent cache storage')
      else (∅, mkContent cache storage')
    else (cache, mkContent cache (storage st))
  else (∅, st).

(** The [chrome.storage.onChanged] listener of [init], on a change of the
    [notes] key in the local area: [notesCache = changes.notes.newValue || {}]. *)
Definition onNotesChanged (newValue : option (gmap string NoteData))
    (st : ContentState) : ContentState :=
  mkContent (default ∅ newValue) (storage st).

(** Everything the content script does to the collection. *)
Inductive StoreOp :=
| DoSaveNote (env : Env) (username noteText : string) (score : option Z)
| DoDeleteScore (env : Env) (username : string) (index : Z)
| DoDeleteNote (env : Env) (username : string)
| DoGetNote (now : Z) (username : string)
| DoLoadNotes (env : LoadEnv)
| DoChangeDelivered    (* the listener runs for the value now persisted *)
| DoStorageChanged (newValue : option (gmap string NoteData)).
    (* another context (the popup, another tab) has set the [notes] key
       to [newValue], and the listener runs for it *)

Definition run_store_op (op : StoreOp) (st : ContentState) : ContentState :=
  match op with
  | DoSaveNote env u t sc => (saveNote env u t sc st).2
  | DoDeleteScore env u i => (deleteScoreAtIndex env u i st).2
  | DoDeleteNote env u => (deleteNote env u st).2
  | DoGetNote now u => mkContent (getNote now u (notesCache st)).2 (storage st)
  | DoLoadNotes env => (loadNotes env st).2
  | DoChangeDelivered => onNotesChanged (notes_key (storage st)) st
  | DoStorageChanged newValue =>
      onNotesChanged newValue
        (mkContent (notesCache st) (mkStorage newValue (set_calls (storage st))))
  end.

Definition run_store_ops (ops : list StoreOp) (st : ContentState) : ContentState :=
  fold_left (fun s op => run_store_op op s) ops st.

(** A record in the shape [saveNote] writes: text and sample list present,
    no legacy field, at most five samples, each between 1 and 5, and text
    or samples not empty. *)
Definition record_wf (d : NoteData) : Prop :=
  ∃ s l, note d = Some s ∧ scores d = Some l ∧ score d = None
         ∧ (length l ≤ 5)%nat
         ∧ Forall (fun smp => 1 ≤ value smp ≤ 5) l
         ∧ (s ≠ "" ∨ l ≠ []).

Definition cache_wf (cache : gmap string NoteData) : Prop :=
  map_Forall (fun _ d => record_wf d) cache.

Definition store_wf (st : ContentState) : Prop :=
  cache_wf (notesCache st)
  ∧ ∀ m, notes_key (storage st) = Some m → cache_wf m.

(** The conditions under which the records stay well formed: what other
    contexts write to storage is well formed, and the page asks for users
    whose key is not the name of an inherited member. *)
Definition op_ok (op : StoreOp) : Prop :=
  match op with
  | DoSaveNote _ u _ _ | DoDeleteScore _ u _ | DoDeleteNote _ u | DoGetNote _ u =>
      inherited (normalizeUsername u) = false
  | DoLoadNotes _ | DoChangeDelivered => True
  | DoStorageChanged newValue => cache_wf (default ∅ newValue)
  end.

(** [Math.max(1, Math.min(5, Math.round(avgScore)))], the colour tier of
    [createNoteButton] and [updateAllIndicators]. *)
Definition colorTier (avgScore : Qc) : Z :=
  Z.max 1 (Z.min 5 (Math_round avgScore)).

(* ===================================================================== *)
(** ** logger.js: reading and clearing the logs                           *)
(* ===================================================================== *)

Module LogApi.

(** What [xpnGetLogs] observes: the environment of the flush it may run,
    and whether its own read succeeds. *)
Record GetEnv := mkGetEnv {
  flush_env : Logger.FlushEnv;
  read_ok   : bool
}.

(** [xpnGetLogs()]: the list returned, the module's state and the stored
    list afterwards. *)
Definition xpnGetLogs (env : GetEnv) (st : Logger.LoggerState)
    (stor : Logger.LogStorage)
    : list Logger.LogEntry * Logger.LoggerState * Logger.LogStorage :=
  (* if (flushTimeout) { clearTimeout(flushTimeout); flushTimeout = null; } *)
  let st1 := Logger.mkLogger (Logger.logQueue st) None (Logger.isFlushing st) in
  (* if (logQueue.length > 0) await flushLogs(); *)
  let '(st2, stor2) :=
    if (0 <? length (Logger.logQueue st1))%nat
    then Logger.flushLogs (flush_env env) st1 stor
    else (st1, stor) in
  (* return result[XPN_LOG_KEY] || [], or [] when the read throws *)
  (if read_ok env then default [] stor2 else [], st2, stor2).


(** The synchronous steps the module takes, one per event of its context.
    A flush is two steps, its start and its [finally]; the storage round
    trip in between does not touch the module's variables. *)
Inductive LoggerEvent :=
| EvLog (c : Logger.LogCall)        (* a call of [xpnLog] *)
| EvFlush                           (* [flushLogs] starts: timer or call *)
| EvFinally (now : Z)               (* the [finally] block of a flush *)
| EvGetLogs                         (* [xpnGetLogs] up to its first await *)
| EvClear.                          (* [xpnClearLogs] up to its await *)

Definition logger_step (ev : LoggerEvent) (st : Logger.LoggerState)
    : Logger.LoggerState :=
  match ev with
  | EvLog c => Logger.xpnLog c st
  | EvFlush => (Logger.flushLogs_begin st).2
  | EvFinally now => Logger.flushLogs_finally now st
  | EvGetLogs =>
      let st1 := Logger.mkLogger (Logger.logQueue st) None (Logger.isFlushing st) in
      if (0 <? length (Logger.logQueue st1))%nat
      then (Logger.flushLogs_begin st1).2
      else st1
  | EvClear => Logger.mkLogger [] None (Logger.isFlushing st)
  end.

Definition logger_run (evs : list LoggerEvent) (st : Logger.LoggerState)
    : Logger.LoggerState :=
  fold_left (fun acc ev => logger_step ev acc) evs st.

(** The entries logged by the [xpnLog] calls among the interleaved events. *)
Definition logged_during (evs : list Logger.Interleaved) : list Logger.LogEntry :=
  omap (fun ev => match ev with
                  | Logger.ILog c => Some (Logger.entry_of c)
                  | Logger.ITimer => None
                  end) evs.

(** Entries wait in the queue only while a timer is armed or a flush is
    under way. *)
Definition flush_pending (st : Logger.LoggerState) : Prop :=
  Logger.logQueue st ≠ [] → is_Some (Logger.flushTimeout st) ∨ Logger.isFlushing st = true.

End LogApi.

(* ===================================================================== *)
(** ** logger.js: the standing listener that answers a log request        *)
(* ===================================================================== *)

Module BridgeResponder.

(** The [__xpn_get_logs__] listener: it awaits [xpnGetLogs()] and
    dispatches [__xpn_logs_response__] with [JSON.stringify(logs)];
    [latency] is the time the call takes. *)
Definition logs_responder (JSON_stringify : list Logger.LogEntry → string)
    (latency : Z) (env : LogApi.GetEnv) (st : Logger.LoggerState)
    (stor : Logger.LogStorage) : Bridge.Responder :=
  Bridge.mkResponder latency (JSON_stringify (LogApi.xpnGetLogs env st stor).1.1).

End BridgeResponder.

(* ===================================================================== *)
(** ** content.js: discovery of usernames and decoration                  *)
(* ===================================================================== *)

Module Discovery.

(** A character of the class [[a-zA-Z0-9_]]. *)
Definition is_word_char (c : ascii) : bool :=
  let n := N_of_ascii c in
  (((48 <=? n) && (n <=? 57)) || ((65 <=? n) && (n <=? 90))
   || ((97 <=? n) && (n <=? 122)) || (n =? 95))%N.

Fixpoint all_chars (p : ascii → bool) (s : string) : bool :=
  match s with
  | EmptyString => true
  | String c r => p c && all_chars p r
  end.

(** [/^\/[a-zA-Z0-9_]{1,15}$/.test(href)] *)
Definition is_profile_href (href : string) : bool :=
  match href with
  | String c rest =>
      Ascii.eqb c "/"
      && (1 <=? String.length rest)%nat && (String.length rest <=? 15)%nat
      && all_chars is_word_char rest
  | EmptyString => false
  end.

(** What the scan reads of an [<a>] element, and the number of note
    buttons injected beside it. *)
Record Anchor := mkAnchor {
  href          : option string;   (* [getAttribute('href')] *)
  textContent   : string;
  processed     : bool;            (* has [data-xpn-processed] *)
  in_modal      : bool;            (* [closest('.xpn-modal')] *)
  in_wrapper    : bool;            (* [closest('.xpn-username-wrapper')] *)
  in_tweet_text : bool;            (* [closest('[data-testid="tweetText"]')] *)
  buttons       : nat
}.

(** The body of the [forEach] of [findUsernameElements] for one element:
    the username it pushes, if any. *)
Definition candidate (link : Anchor) : option string :=
  match href link with
  | None => None
  | Some h =>
      if negb (JsString.startsWith "/" h) then None     (* a[href^="/"] *)
      else if processed link then None
      else if in_modal link then None
      else if in_wrapper link then None
      else if is_profile_href h then
        let text := JsString.trim (textContent link) in
        if JsString.startsWith "@" text
           || String.eqb (JsString.toLowerCase text)
                         (JsString.toLowerCase (JsString.drop 1 h))
        then if in_tweet_text link then None
             else Some (JsString.drop 1 h)
        else None
      else None
  end.

(** [findUsernameElements()]: the elements, by position in the document,
    with their usernames. *)
Definition findUsernameElements (doc : list Anchor) : list (nat * string) :=
  omap (fun '(i, link) => (fun u => (i, u)) <$> candidate link)
       (imap pair doc).

Definition skipUsernames : list string :=
  ["home"; "explore"; "notifications"; "messages"; "settings"; "search";
   "compose"; "i"; "intent"].

(** [skipUsernames.includes(username.toLowerCase())] *)
Definition is_skipped (username : string) : bool :=
  existsb (String.eqb (JsString.toLowerCase username)) skipUsernames.

(** [injectButton(element, username)]: the element is marked, wrapped, and
    gets a button. *)
Definition injectButton (link : Anchor) : Anchor :=
  mkAnchor (href link) (textContent link) true (in_modal link) true
           (in_tweet_text link) (S (buttons link)).

(** [processPage()]: the document afterwards and [injectedCount]. *)
Definition processPage (doc : list Anchor) : list Anchor * nat :=
  fold_left
    (fun '(d, injectedCount) '(i, username) =>
       match d !! i with
       | Some element =>
           if processed element then (d, injectedCount)
           else if is_skipped username then (d, injectedCount)
           else (<[i := injectButton element]> d, S injectedCount)
       | None => (d, injectedCount)
       end)
    (findUsernameElements doc) (doc, O).

(** What one pass does to one element. *)
Definition decorate (link : Anchor) : Anchor :=
  match candidate link with
  | Some username => if is_skipped username then link else injectButton link
  | None => link
  end.

(** Whether a pass gives the element a button, and how many it gives. *)
Definition gets_button (link : Anchor) : bool :=
  match candidate link with
  | Some username => negb (is_skipped username)
  | None => false
  end.

Definition injected_count (l : list Anchor) : nat :=
  length (filter (fun link => gets_button link = true) l).

End Discovery.

(* ===================================================================== *)
(** ** content.js: the debounced re-scan                                  *)
(* ===================================================================== *)

Module Scan.

(** [CONFIG.debounceMs] *)
Definition debounceMs : Z := 100.

(** The page: its document, the timers that run [processPage], each with
    its handle and due time, [processTimeout], and how often
    [processPage] has run. *)
Record ScanState := mkScan {
  document       : list Discovery.Anchor;
  processTimeout : option positive;
  next_handle    : positive;
  armed          : list (positive * Z);
  scans          : nat
}.

Definition initial_scan (doc : list Discovery.Anchor) : ScanState :=
  mkScan doc None 1%positive [] O.

(** [clearTimeout(handle)] *)
Definition clearTimeout (handle : positive) (timers : list (positive * Z))
    : list (positive * Z) :=
  filter (fun t => negb (Pos.eqb t.1 handle)) timers.

(** [debouncedProcess()] called at time [now]. *)
Definition debouncedProcess (now : Z) (s : ScanState) : ScanState :=
  let timers :=
    match processTimeout s with
    | Some handle => clearTimeout handle (armed s)
    | None => armed s
    end in
  mkScan (document s) (Some (next_handle s)) (Pos.succ (next_handle s))
         (timers ++ [(next_handle s, now + debounceMs)]) (scans s).

(** The callback of [setupObserver]: [mutations] gives
    [addedNodes.length] of each record. *)
Definition onMutations (now : Z) (mutations : list nat) (s : ScanState)
    : ScanState :=
  if existsb (fun added => (0 <? added)%nat) mutations
  then debouncedProcess now s
  else s.

(** The records of [injectedCount] calls of [injectButton], which works
    under [document.body]: the wrapper put before the element, the
    element taken out of its parent, the element and the button put into
    the wrapper. *)
Definition injection_records (injectedCount : nat) : list nat :=
  flat_map (fun _ => [1; 0; 1; 1]%nat) (seq 0 injectedCount).

(** The callback of a scan timer, at time [now]: [processPage] runs, and
    the observer is then called with the records of what was inserted
    (without records it is not called, which is [onMutations] on the
    empty list). *)
Definition timer_callback (now : Z) (s : ScanState) : ScanState :=
  let '(doc, injectedCount) := Discovery.processPage (document s) in
  onMutations now (injection_records injectedCount)
    (mkScan doc (processTimeout s) (next_handle s) (armed s) (S (scans s))).

(** The first armed timer due by [time] fires, at its due time. *)
Definition fire_next (time : Z) (s : ScanState) : option ScanState :=
  match filter (fun t => t.2 <=? time) (armed s) with
  | (handle, due) :: _ =>
      Some (timer_callback due
              (mkScan (document s) (processTimeout s) (next_handle s)
                      (clearTimeout handle (armed s)) (scans s)))
  | [] => None
  end.

Fixpoint run_due (fuel : nat) (time : Z) (s : ScanState) : ScanState :=
  match fuel with
  | O => s
  | S fuel' =>
      match fire_next time s with
      | Some s' => run_due fuel' time s'
      | None => s
      end
  end.

(** The timers due by [time] fire, one after the other.  A firing takes a
    timer away, and only a scan that injects arms a new one, after which
    nothing is left to inject: one firing more than there are timers
    is enough. *)
Definition run_timers (time : Z) (s : ScanState) : ScanState :=
  run_due (S (length (armed s))) time s.

(** A burst: at each time the timers due fire, then [debouncedProcess] is
    called. *)
Definition burst (times : list Z) (s : ScanState) : ScanState :=
  fold_left (fun acc t => debouncedProcess t (run_timers t acc)) times s.

(** Each call comes less than one delay after the one before. *)
Fixpoint within_window (t : Z) (rest : list Z) : Prop :=
  match rest with
  | [] => True
  | t' :: rest' => t ≤ t' < t + debounceMs ∧ within_window t' rest'
  end.

(** The time of the last call of a burst that starts at [t]. *)
Fixpoint last_time (t : Z) (rest : list Z) : Z :=
  match rest with
  | [] => t
  | t' :: rest' => last_time t' rest'
  end.

(** At most one timer is armed, and [processTimeout] is its handle. *)
Definition one_timer (s : ScanState) : Prop :=
  armed s = []
  ∨ ∃ handle due, armed s = [(handle, due)] ∧ processTimeout s = Some handle.

(** What happens in the page, for the scan scheduler. *)
Inductive ScanEvent :=
| PageChanged (now : Z) (doc : list Discovery.Anchor) (added : list nat)
    (* the page has rebuilt its document; the observer's callback *)
| Navigated (now : Z)                      (* the URL changed *)
| Tick (time : Z).                         (* timers due by [time] fire *)

Definition scan_step (ev : ScanEvent) (s : ScanState) : ScanState :=
  match ev with
  | PageChanged now doc added =>
      onMutations now added
        (mkScan doc (processTimeout s) (next_handle s) (armed s) (scans s))
  | Navigated now => debouncedProcess now s
  | Tick time => run_timers time s
  end.

End Scan.

(* ===================================================================== *)
(** ** popup.js: the popup's copy of the collection                       *)
(* ===================================================================== *)

Module Popup.

(** The popup's state: [allNotes] and the shared storage. *)
Record PopupState := mkPopup {
  allNotes : gmap string NoteData;
  pstorage : ChromeStorage
}.

(** The migration written out in the popup's [loadNotes]. *)
Definition migrate_inline (now : Z) (d : NoteData) : NoteData :=
  match score d, scores d with
  | Some oldScore, None =>
      mkNote (note d) None
        (Some match oldScore with
              | Some v => [mkSample v (num_or (updatedAt d) now)]
              | None => []
              end)
        (createdAt d) (updatedAt d)
  | _, _ => d
  end.

(** The popup's [loadNotes()].  Any failure empties [allNotes]. *)
Definition loadNotes (env : LoadEnv) (st : PopupState) : PopupState :=
  if load_get_ok env then
    let stored := default ∅ (notes_key (pstorage st)) in
    let notes := map_imap (fun k d => Some (migrate_inline (load_clock env k) d)) stored in
    if needs_save stored then
      let '(ok, storage') := storage_set (load_set_ok env) notes (pstorage st) in
      if ok then mkPopup notes storage' else mkPopup ∅ storage'
    else mkPopup notes (pstorage st)
  else mkPopup ∅ (pstorage st).

(** The popup's [getAverageScore(data)]. *)
Definition getAverageScore (data : NoteData) : option Qc :=
  match scores data with
  | None => None
  | Some l =>
      if (length l =? 0)%nat then None
      else
        let sum := fold_left (fun acc s => acc + value s) l 0 in
        Some (Z2Qc (Math_round (Z2Qc sum / Z2Qc (Z.of_nat (length l)) * Z2Qc 10))
              / Z2Qc 10)%Qc
  end.

(** What the user and the system answer during an action. *)
Record Answers := mkAnswers {
  prompt_text : option string;   (* [prompt(...)]; [None] is Cancel *)
  confirmed   : bool;            (* [confirm(...)] *)
  now         : Z;               (* [Date.now()] *)
  write_ok    : bool             (* does [chrome.storage.local.set] succeed *)
}.

(** The popup's [deleteNote(username)]. *)
Definition deleteNote (ans : Answers) (username : string) (st : PopupState)
    : PopupState :=
  if confirmed ans then
    let notes := delete username (allNotes st) in
    mkPopup notes (storage_set (write_ok ans) notes (pstorage st)).2
  else st.

(** [editNote(username)] *)
Definition editNote (ans : Answers) (username : string) (st : PopupState)
    : PopupState :=
  match allNotes st !! username with
  | None => st
  | Some data =>
      match prompt_text ans with
      | None => st                                     (* cancelled *)
      | Some newNote =>
          let hasScores :=
            match scores data with
            | Some l => (0 <? length l)%nat
            | None => false
            end in
          if bool_decide (JsString.trim newNote = "") && negb hasScores
          then deleteNote ans username st
          else
            let notes :=
              <[username := set_updatedAt (now ans)
                              (set_note (JsString.trim newNote) data)]>
                (allNotes st) in
            mkPopup notes (storage_set (write_ok ans) notes (pstorage st)).2
      end
  end.





(** The label [formatDate] shows for an age of [diff] ms. *)
Inductive DateLabel :=
| JustNow
| MinutesAgo (mins : Z)
| HoursAgo (hours : Z)
| DaysAgo (days : Z)
| FullDate.

(** [formatDate(date)] with [diff = now - date]. *)
Definition formatDate (diff : Z) : DateLabel :=
  if diff <? 60000 then JustNow
  else if diff <? 3600000 then MinutesAgo (diff / 60000)
  else if diff <? 86400000 then HoursAgo (diff / 3600000)
  else if diff <? 604800000 then DaysAgo (diff / 86400000)
  else FullDate.

End Popup.

(* ===================================================================== *)
(** ** content.js: the date of a sample in the history                    *)
(* ===================================================================== *)

(** The label [formatScoreDate] shows. *)
Inductive ScoreDateLabel :=
| Today
| Yesterday
| NDaysAgo (days : Z)
| OnDate.

(** [formatScoreDate(timestamp)] with [diffMs = now - date]. *)
Definition formatScoreDate (diffMs : Z) : ScoreDateLabel :=
  let diffDays := diffMs / (1000 * 60 * 60 * 24) in
  if diffDays =? 0 then Today
  else if diffDays =? 1 then Yesterday
  else if diffDays <? 7 then NDaysAgo diffDays
  else OnDate.

(* ===================================================================== *)
(** ** content.js: the note button and its refresh                        *)
(* ===================================================================== *)

Module Render.

(** [avgScore % 1 === 0 ? avgScore.toString() : avgScore.toFixed(1)]: a
    whole number, or a number of tenths shown with one decimal. *)
Inductive DisplayScore :=
| Whole (n : Z)
| OneDecimal (tenths : Z).

Definition displayScore (avgScore : Qc) : DisplayScore :=
  if (Qden (this avgScore) =? 1)%positive then Whole (Qnum (this avgScore))
  else OneDecimal (Math_round (avgScore * Z2Qc 10)%Qc).

(** What the button shows: the score, or the note icon. *)
Inductive Face :=
| ScoreFace (display : DisplayScore)
| IconFace.

(** The [title] attribute, by the template that produced it. *)
Inductive Title :=
| TitleAdd                                      (* Add note for @user *)
| TitleView                                     (* View/edit note for @user *)
| TitleAvg (display : DisplayScore) (scoreCount : nat).

Record Button := mkButton {
  data_username : string;
  classList     : gset string;
  face          : Face;
  title         : Title
}.

(** [`xpn-score-${colorTier}`] *)
Definition tier_class (tier : Z) : string := "xpn-score-" +:+ pretty tier.

Definition score_classes : gset string :=
  {[ "xpn-has-score"; "xpn-score-1"; "xpn-score-2"; "xpn-score-3";
     "xpn-score-4"; "xpn-score-5" ]}.

(** [createNoteButton(username)] *)
Definition createNoteButton (username : string)
    (cache : gmap string NoteData) : Button :=
  let avgScore := getAverageScore username cache in
  let scoreCount := length (getScores username cache) in
  let b0 := mkButton username {[ "xpn-note-btn" ]} IconFace TitleAdd in
  let b1 :=
    match avgScore with
    | Some avg =>
        mkButton username
          (classList b0 ∪ {[ "xpn-has-score" ]} ∪ {[ tier_class (colorTier avg) ]})
          (ScoreFace (displayScore avg))
          (TitleAvg (displayScore avg) scoreCount)
    | None => b0
    end in
  if hasNote username cache then
    mkButton username (classList b1 ∪ {[ "xpn-has-note" ]}) (face b1)
      match avgScore with
      | None => TitleView
      | Some _ => title b1
      end
  else b1.

(** The body of the [forEach] of [updateAllIndicators] for one button. *)
Definition updateIndicator (cache : gmap string NoteData) (button : Button)
    : Button :=
  let username := data_username button in
  let avgScore := getAverageScore username cache in
  let scoreCount := length (getScores username cache) in
  let hasNoteData := hasNote username cache in
  (* Remove all score classes first *)
  let classes := classList button ∖ score_classes in
  match avgScore with
  | Some avg =>
      mkButton username
        (classes ∪ {[ "xpn-has-score" ]} ∪ {[ tier_class (colorTier avg) ]})
        (ScoreFace (displayScore avg))
        (TitleAvg (displayScore avg) scoreCount)
  | None =>
      if hasNoteData
      then mkButton username (classes ∪ {[ "xpn-has-note" ]}) IconFace TitleView
      else mkButton username (classes ∖ {[ "xpn-has-note" ]}) IconFace TitleAdd
  end.

(** [updateAllIndicators()] over the buttons of the page. *)
Definition updateAllIndicators (cache : gmap string NoteData)
    (page : list Button) : list Button :=
  map (updateIndicator cache) page.

End Render.

(* ===================================================================== *)
(** * Properties                                                          *)
(* ===================================================================== *)

(** ** normalizeUsername *)

Section NormalizeFacts.
Import JsString.

Lemma lower_ascii_idem c : lower_ascii (lower_ascii c) = lower_ascii c.
Proof.
  destruct c as [[] [] [] [] [] [] [] []]; reflexivity.
Qed.

Lemma lower_ascii_at c : Ascii.eqb (lower_ascii c) "@" = Ascii.eqb c "@".
Proof.
  destruct c as [[] [] [] [] [] [] [] []]; reflexivity.
Qed.

Lemma toLowerCase_idem s : toLowerCase (toLowerCase s) = toLowerCase s.
Proof.
  induction s as [|c r IH]; simpl; [reflexivity|].
  now rewrite lower_ascii_idem, IH.
Qed.

(** With a one-character pattern and an empty replacement, [replace]
    deletes the first occurrence of the character. *)
Lemma replace_at_cons c r :
  replace "@" "" (String c r) =
  if Ascii.eqb "@" c then r else String c (replace "@" "" r).
Proof.
  change (replace "@" "" (String c r)) with
    (if (if Ascii.eqb "@" c then startsWith "" r else false)
     then "" +:+ drop 1 (String c r)
     else String c (replace "@" "" r)).
  destruct (Ascii.eqb "@" c); [|reflexivity].
  destruct r; reflexivity.
Qed.

Lemma replace_at_absent s : count "@" s = O → replace "@" "" s = s.
Proof.
  induction s as [|c r IH]; [reflexivity|].
  rewrite replace_at_cons. cbn [count].
  rewrite (Ascii.eqb_sym "@" c).
  destruct (Ascii.eqb c "@"); [discriminate|].
  intros H. now rewrite IH.
Qed.

Lemma count_replace_at s : count "@" (replace "@" "" s) = pred (count "@" s).
Proof.
  induction s as [|c r IH]; [reflexivity|].
  rewrite replace_at_cons. cbn [count].
  rewrite (Ascii.eqb_sym "@" c).
  destruct (Ascii.eqb c "@") eqn:E; [reflexivity|].
  cbn [count]. rewrite E, IH. reflexivity.
Qed.

Lemma count_toLowerCase s : count "@" (toLowerCase s) = count "@" s.
Proof.
  induction s as [|c r IH]; [reflexivity|].
  cbn [toLowerCase count]. now rewrite lower_ascii_at, IH.
Qed.

Lemma toLowerCase_replace_at s :
  toLowerCase (replace "@" "" s) = replace "@" "" (toLowerCase s).
Proof.
  induction s as [|c r IH]; [reflexivity|].
  cbn [toLowerCase]. rewrite !replace_at_cons.
  rewrite (Ascii.eqb_sym "@" c), (Ascii.eqb_sym "@" (lower_ascii c)), lower_ascii_at.
  destruct (Ascii.eqb c "@"); [reflexivity|].
  cbn [toLowerCase]. now rewrite IH.
Qed.

Lemma count_normalizeUsername x :
  count "@" (normalizeUsername x) = pred (count "@" x).
Proof.
  unfold normalizeUsername. now rewrite count_replace_at, count_toLowerCase.
Qed.

End NormalizeFacts.

(** C3, as the specification states it, fails: [replace('@', '')] removes
    the first '@' of its input, so a second pass removes another one. *)
Lemma normalizeUsername_not_idempotent :
  normalizeUsername (normalizeUsername "@@Bob") ≠ normalizeUsername "@@Bob".
Proof. vm_compute. discriminate. Qed.

(** The marker is removed wherever it first occurs, leading or not. *)
Example normalizeUsername_inner_marker : normalizeUsername "Al@ice" = "alice".
Proof. reflexivity. Qed.

(** C3 (amended): normalizeUsername lowercases its input and removes the
    first '@' wherever it occurs; on every input with at most one '@' it
    is idempotent, and its result is lower case and free of '@'. *)
Theorem normalizeUsername_idempotent_one_marker (x : string)
    (H : (JsString.count "@" x ≤ 1)%nat) :
  normalizeUsername (normalizeUsername x) = normalizeUsername x
  ∧ JsString.toLowerCase (normalizeUsername x) = normalizeUsername x
  ∧ JsString.count "@" (normalizeUsername x) = O.
Proof.
  assert (H0 : JsString.count "@" (normalizeUsername x) = O).
  { rewrite count_normalizeUsername. lia. }
  assert (HL : JsString.toLowerCase (normalizeUsername x) = normalizeUsername x).
  { unfold normalizeUsername.
    now rewrite toLowerCase_replace_at, toLowerCase_idem. }
  split; [|split]; try assumption.
  unfold normalizeUsername at 1. rewrite HL.
  now apply replace_at_absent.
Qed.

Lemma normalizeUsername_idempotent_one_marker_witness :
  (JsString.count "@" "@Alice" ≤ 1)%nat
  ∧ normalizeUsername (normalizeUsername "@Alice") = normalizeUsername "@Alice".
Proof.
  split; [vm_compute; lia|].
  apply (normalizeUsername_idempotent_one_marker "@Alice"). vm_compute; lia.
Defined.

(** ** migrateNoteFormat *)

Section MigrateFacts.

Lemma migrate_has_scores now d : is_Some (scores (migrateNoteFormat now d)).
Proof.
  unfold migrateNoteFormat.
  destruct d as [n [sc|] [l|] c u]; simpl; eauto.
Qed.

Lemma migrate_noop_on_scores now d l :
  scores d = Some l → migrateNoteFormat now d = d.
Proof.
  destruct d as [n sc ss c u]; simpl. intros ->.
  unfold migrateNoteFormat; simpl. now destruct sc.
Qed.

Lemma migrate_idempotent now now' d :
  migrateNoteFormat now' (migrateNoteFormat now d) = migrateNoteFormat now d.
Proof.
  destruct (migrate_has_scores now d) as [l Hl].
  now apply migrate_noop_on_scores with l.
Qed.

End MigrateFacts.

(** C7, as the specification states it, fails at [T = 0]: the timestamp is
    [noteData.updatedAt || Date.now()], and [0] is falsy, so the sample
    gets the time of the migration (here 1700000000000), not [T]. *)
Lemma migrate_legacy_epoch_timestamp :
  scores (migrateNoteFormat 1700000000000
            (mkNote None (Some (Some 4)) None None (Some 0)))
  ≠ Some [mkSample 4 0].
Proof. vm_compute. discriminate. Qed.

(** C7 (amended): a legacy record [{score: v, updatedAt: T}] with [T] other
    than 0 migrates to the record with [scores = [{value: v, timestamp: T}]]
    and no [score] field, its other fields kept; a record that has a
    [scores] list is returned unchanged, so migrating twice is migrating
    once. *)
Theorem migrate_legacy_record
    (now now' v T : Z) (n : option string) (c : option Z) (HT : T ≠ 0) :
  migrateNoteFormat now (mkNote n (Some (Some v)) None c (Some T))
    = mkNote n None (Some [mkSample v T]) c (Some T)
  ∧ (∀ d l, scores d = Some l → migrateNoteFormat now d = d)
  ∧ (∀ d, migrateNoteFormat now' (migrateNoteFormat now d) = migrateNoteFormat now d).
Proof.
  split; [|split].
  - unfold migrateNoteFormat; simpl.
    destruct (Z.eqb_spec T 0); [contradiction|reflexivity].
  - intros d l. apply migrate_noop_on_scores.
  - intros d. apply migrate_idempotent.
Qed.

Lemma migrate_legacy_record_witness :
  1699999999000 ≠ 0
  ∧ migrateNoteFormat 1700000000000
      (mkNote None (Some (Some 4)) None None (Some 1699999999000))
    = mkNote None None (Some [mkSample 4 1699999999000]) None (Some 1699999999000).
Proof.
  split; [lia|].
  apply (migrate_legacy_record 1700000000000 1700000000000 4 1699999999000 None None).
  lia.
Defined.

(** ** saveNote and deleteScoreAtIndex *)

Section NoteStoreFacts.

Lemma saveNote_cache env u t sc st :
  notesCache (saveNote env u t sc st).2 =
    let e := entry_after env t sc (notesCache st !! normalizeUsername u) in
    if hasContent e then <[normalizeUsername u := e]> (notesCache st)
    else delete (normalizeUsername u) (notesCache st).
Proof.
  unfold saveNote, entry_after, storage_set.
  destruct (set_ok env); reflexivity.
Qed.

Lemma note_text_trimmed t :
  (if bool_decide (t = "") then "" else JsString.trim t) = JsString.trim t.
Proof.
  case_bool_decide; subst; reflexivity.
Qed.




(** [hasContent], read as a proposition on the two fields. *)
Lemma hasContent_true d s l :
  note d = Some s → scores d = Some l →
  hasContent d = true → s ≠ "" ∨ l ≠ [].
Proof.
  unfold hasContent, scores_list. intros -> ->. simpl.
  rewrite orb_true_iff, negb_true_iff, bool_decide_eq_false.
  intros [H|H]; [left; congruence|right].
  destruct l; [discriminate|discriminate].
Qed.



Lemma deleteScore_cache env u i st d l smp :
  notesCache st !! normalizeUsername u = Some d →
  scores d = Some l → js_nth l i = Some smp →
  notesCache (deleteScoreAtIndex env u i st).2 =
    let d' := set_updatedAt (Date_now env) (set_scores (delete (Z.to_nat i) l) d) in
    if hasContent d' then <[normalizeUsername u := d']> (notesCache st)
    else delete (normalizeUsername u) (notesCache st).
Proof.
  intros Hd Hl Hi. unfold deleteScoreAtIndex, storage_set.
  rewrite Hd, Hl, Hi. destruct (set_ok env); reflexivity.
Qed.






End NoteStoreFacts.

Section SaveNoteClaims.




Lemma keep_last_five_length l :
  length (keep_last_five l) = Nat.min 5 (length l).
Proof.
  unfold keep_last_five, slice_last.
  destruct (Nat.ltb_spec 5 (length l)); [rewrite length_drop|]; lia.
Qed.




End SaveNoteClaims.










(** White space outside ASCII is trimmed as well: a text made of a
    no-break space (C2 A0) and an ideographic space (E3 80 80) is blank,
    and saving it without score for a new user leaves no record. *)
Example saveNote_blank_unicode_text :
  let nbsp := String (ascii_of_N 194) (String (ascii_of_N 160) "") in
  let ideographic :=
    String (ascii_of_N 227) (String (ascii_of_N 128) (String (ascii_of_N 128) "")) in
  JsString.trim (nbsp +:+ "hi" +:+ ideographic) = "hi"
  ∧ JsString.trim (nbsp +:+ ideographic) = ""
  ∧ notesCache (saveNote (mkEnv 10 10 true) "Heidi" (nbsp +:+ ideographic) None
                  initial_content).2 = ∅.
Proof. cbv zeta. repeat split. Qed.

(** ** getAverageScore *)

Section AverageFacts.

Ltac qc_to_q :=
  unfold Qcle, Qclt, Qcdiv, Qcminus, Qcopp, Qcinv, Qcmult, Qcplus, Z2Qc in *;
  cbn [this Q2Qc] in *;
  rewrite ?Qred_correct in *.

Lemma Math_round_bounds (x : Qc) :
  (Z2Qc (Math_round x) <= x + Z2Qc 1 / Z2Qc 2)%Qc
  ∧ (x + Z2Qc 1 / Z2Qc 2 < Z2Qc (Math_round x) + Z2Qc 1)%Qc.
Proof.
  unfold Math_round. set (y := (x + Z2Qc 1 / Z2Qc 2)%Qc).
  unfold Qcle, Qclt, Qcplus, Z2Qc. cbn [this Q2Qc].
  rewrite !Qred_correct.
  split.
  - apply Qfloor_le.
  - pose proof (Qlt_floor y) as H. rewrite inject_Z_plus in H. exact H.
Qed.


Lemma getAverageScore_some u cache d l :
  cache !! normalizeUsername u = Some d → scores d = Some l → l ≠ [] →
  getAverageScore u cache =
    Some (Z2Qc (Math_round (mean l * Z2Qc 10)) / Z2Qc 10)%Qc.
Proof.
  intros Hd Hl Hne. unfold getAverageScore. rewrite Hd, Hl.
  destruct l as [|s l']; [contradiction|]. reflexivity.
Qed.

End AverageFacts.

(** *** Double precision agrees with the exact mean on stored lists *)

Section DoubleFacts.
Import Double.

Lemma score_lists_complete (values : list Z) :
  Forall (fun v => 1 ≤ v ≤ 5) values →
  In values (score_lists (length values)).
Proof.
  induction 1 as [|v l Hv _ IH]; [now left|].
  cbn [length score_lists]. apply in_flat_map.
  exists l. split; [exact IH|].
  apply in_map_iff. exists v. split; [reflexivity|].
  assert (v = 1 ∨ v = 2 ∨ v = 3 ∨ v = 4 ∨ v = 5) as Hcases by lia.
  destruct Hcases as [->|[->|[->|[->| ->]]]]; cbn [In]; auto 10.
Qed.

Lemma agrees_on_score_lists :
  forallb agrees
    (score_lists 1 ++ score_lists 2 ++ score_lists 3 ++ score_lists 4
       ++ score_lists 5) = true.
Proof. vm_compute. reflexivity. Qed.

(** On every list of one to five scores within 1..5, the double computed
    by [getAverageScore] is the double nearest to the exact result. *)
Lemma average_double_agrees (values : list Z) :
  (1 ≤ length values ≤ 5)%nat →
  Forall (fun v => 1 ≤ v ≤ 5) values →
  agrees values = true.
Proof.
  intros Hlen Hvals.
  pose proof (score_lists_complete values Hvals) as Hin.
  pose proof agrees_on_score_lists as Hall.
  rewrite forallb_forall in Hall. apply Hall.
  rewrite !in_app_iff.
  assert (length values = 1 ∨ length values = 2 ∨ length values = 3
          ∨ length values = 4 ∨ length values = 5)%nat as Hcases by lia.
  destruct Hcases as [H|[H|[H|[H|H]]]]; rewrite H in Hin; tauto.
Qed.

Lemma sum_values_fold (l : list ScoreSample) :
  sum_values l = fold_left Z.add (map value l) 0.
Proof.
  unfold sum_values. generalize 0.
  induction l as [|s l IH]; intros acc; [reflexivity|apply IH].
Qed.

(** The exact side of the comparison is the model of [getAverageScore]. *)
Lemma tenths_exact_is_model (l : list ScoreSample) :
  tenths_exact (map value l) = Math_round (mean l * Z2Qc 10)%Qc.
Proof.
  unfold tenths_exact, mean. cbv zeta.
  now rewrite <- sum_values_fold, length_map.
Qed.

End DoubleFacts.



(** The specification's end-to-end case: [saveNote("Alice", " great
    contact ", 5)] on an empty collection. *)
Example saveNote_alice_end_to_end :
  let st := (saveNote (mkEnv 1700000000000 1700000000000 true)
               "Alice" " great contact " (Some 5) initial_content).2 in
  notesCache st !! "alice"
    = Some (mkNote (Some "great contact") None
              (Some [mkSample 5 1700000000000])
              (Some 1700000000000) (Some 1700000000000))
  ∧ notes_key (storage st) = Some (notesCache st)
  ∧ getAverageScore "alice" (notesCache st) = Some (Z2Qc 5).
Proof.
  cbv zeta. split; [vm_compute; reflexivity|]. split; [reflexivity|].
  erewrite getAverageScore_some;
    [|vm_compute; reflexivity|reflexivity|discriminate].
  f_equal. apply Qc_is_canon. reflexivity.
Qed.

(** ** The log pipeline *)

Section LoggerFacts.
Import Logger.

Lemma trim_logs_is_suffix combined :
  trim_logs combined = drop (length combined - XPN_MAX_LOGS) combined.
Proof.
  unfold trim_logs, slice_last.
  destruct (Nat.ltb_spec XPN_MAX_LOGS (length combined)) as [Hlt|Hle];
    [reflexivity|].
  replace (length combined - XPN_MAX_LOGS)%nat with 0%nat by lia.
  reflexivity.
Qed.

Lemma trim_logs_length combined :
  (length (trim_logs combined) ≤ XPN_MAX_LOGS)%nat.
Proof.
  rewrite trim_logs_is_suffix, length_drop. lia.
Qed.

Lemma flushLogs_try_outcome g w toFlush stor :
  flushLogs_try g w toFlush stor = stor
  ∨ flushLogs_try g w toFlush stor = Some (trim_logs (default [] stor ++ toFlush)).
Proof.
  unfold flushLogs_try. destruct g, w; auto.
Qed.

Lemma flushLogs_storage_outcome env st stor :
  (flushLogs env st stor).2 = stor
  ∨ ∃ toFlush,
      (flushLogs env st stor).2 = Some (trim_logs (default [] stor ++ toFlush)).
Proof.
  unfold flushLogs.
  destruct (flushLogs_begin st) as [[toFlush|] st1]; simpl; [|auto].
  destruct (flushLogs_try_outcome (get_ok env) (set_ok env) toFlush stor)
    as [->| ->]; eauto.
Qed.

Lemma flushLogs_begin_drains st :
  logQueue st ≠ [] → isFlushing st = false →
  flushLogs_begin st = (Some (logQueue st), mkLogger [] None true).
Proof.
  intros Hq Hf. unfold flushLogs_begin. rewrite Hf.
  destruct (logQueue st); [contradiction|reflexivity].
Qed.

Lemma xpnLog_queue c st : logQueue (xpnLog c st) = logQueue st ++ [entry_of c].
Proof. unfold xpnLog. destruct (flushTimeout st); reflexivity. Qed.

Lemma xpnLog_isFlushing c st : isFlushing (xpnLog c st) = isFlushing st.
Proof. unfold xpnLog. destruct (flushTimeout st); reflexivity. Qed.






End LoggerFacts.

(** C4: when no flush is under way and the storage calls succeed,
    [flushLogs] on a non-empty queue writes the persisted list followed by
    the queued entries in queue order, cut down to its last 1000 entries
    (the oldest go first), whatever the context logs meanwhile; the value
    written has at most 1000 entries.  Every call of [flushLogs] either
    leaves the persisted list as it was or writes a list of at most 1000
    entries, so a list within the cap stays within it. *)
Theorem flushLogs_appends_and_trims :
  (∀ (env : Logger.FlushEnv) (st : Logger.LoggerState) (stor : Logger.LogStorage),
      Logger.logQueue st ≠ [] → Logger.isFlushing st = false →
      Logger.get_ok env = true → Logger.set_ok env = true →
      let combined := default [] stor ++ Logger.logQueue st in
      (Logger.flushLogs env st stor).2
        = Some (drop (length combined - 1000) combined)
      ∧ (length (drop (length combined - 1000) combined) ≤ 1000)%nat)
  ∧ (∀ (env : Logger.FlushEnv) (st : Logger.LoggerState) (stor : Logger.LogStorage),
      (Logger.flushLogs env st stor).2 = stor
      ∨ ∃ written, (Logger.flushLogs env st stor).2 = Some written
                   ∧ (length written ≤ 1000)%nat)
  ∧ (∀ (env : Logger.FlushEnv) (st : Logger.LoggerState) (stor : Logger.LogStorage),
      (length (default [] stor) ≤ 1000)%nat →
      (length (default [] (Logger.flushLogs env st stor).2) ≤ 1000)%nat).
Proof.
  split; [|split].
  - intros env st stor Hq Hidle Hget Hset combined.
    split; [|rewrite length_drop; lia].
    unfold Logger.flushLogs.
    rewrite (flushLogs_begin_drains st Hq Hidle). cbn [snd].
    unfold Logger.flushLogs_try. rewrite Hget, Hset.
    now rewrite trim_logs_is_suffix.
  - intros env st stor.
    destruct (flushLogs_storage_outcome env st stor) as [H|[toFlush H]];
      [now left|right].
    eexists. split; [exact H|apply trim_logs_length].
  - intros env st stor Hcap.
    destruct (flushLogs_storage_outcome env st stor) as [->|[toFlush ->]];
      [exact Hcap|apply trim_logs_length].
Qed.

Lemma flushLogs_appends_and_trims_witness :
  let old := Logger.mkEntry 1 "popup" "info" "opened" in
  let a := Logger.mkCall 5 "content" "log" [Logger.ArgOther "scan"; Logger.ArgNull] in
  let b := Logger.mkCall 7 "content" "error" [Logger.ArgError "TypeError" "x is undefined"] in
  let late := Logger.mkCall 9 "content" "warn" [Logger.ArgOther "slow"] in
  let st := Logger.xpnLogs [a; b] Logger.initial_logger in
  let env := Logger.mkFlushEnv true true [Logger.ILog late] 12 in
  (Logger.flushLogs env st (Some [old])).2
    = Some [old; Logger.mkEntry 5 "content" "log" "scan null";
            Logger.mkEntry 7 "content" "error" "TypeError: x is undefined"].
Proof.
  cbv zeta.
  destruct flushLogs_appends_and_trims as [Hwrite _].
  destruct (Hwrite
              (Logger.mkFlushEnv true true
                 [Logger.ILog (Logger.mkCall 9 "content" "warn" [Logger.ArgOther "slow"])] 12)
              (Logger.xpnLogs
                 [Logger.mkCall 5 "content" "log" [Logger.ArgOther "scan"; Logger.ArgNull];
                  Logger.mkCall 7 "content" "error"
                    [Logger.ArgError "TypeError" "x is undefined"]]
                 Logger.initial_logger)
              (Some [Logger.mkEntry 1 "popup" "info" "opened"]))
    as [H _]; [discriminate|reflexivity|reflexivity|reflexivity|].
  exact H.
Defined.

(** The cap at work: a full list and one queued entry. *)
Example flushLogs_evicts_oldest :
  let old := Logger.mkEntry 1 "popup" "info" "opened" in
  let new := Logger.mkEntry 2 "content" "log" "scan" in
  (Logger.flushLogs (Logger.mkFlushEnv true true [] 3)
     (Logger.mkLogger [new] (Some 102) false) (Some (replicate 1000 old))).2
  = Some (replicate 999 old ++ [new]).
Proof. vm_compute. reflexivity. Qed.


(** A burst whose calls are each less than one delay after the one
    before, but which lasts longer than the delay, is split: with calls
    at 0, 50 and 120 the timer armed by the first call fires at 100 and
    its flush takes the first two entries; the third arms a new timer,
    due at 220, which runs a second flush. *)
Example xpnLog_long_burst_is_split :
  let a := Logger.mkCall 0 "content" "log" [Logger.ArgOther "a"] in
  let b := Logger.mkCall 50 "content" "log" [Logger.ArgOther "b"] in
  let c := Logger.mkCall 120 "content" "log" [Logger.ArgOther "c"] in
  let p := LogTimer.logs_at LogTimer.prompt_flush [a; b; c]
             (LogTimer.mkPipeline Logger.initial_logger None 0) in
  LogTimer.flushes p = 1%nat
  ∧ LogTimer.stored p = Some [Logger.entry_of a; Logger.entry_of b]
  ∧ Logger.logQueue (LogTimer.logger p) = [Logger.entry_of c]
  ∧ Logger.flushTimeout (LogTimer.logger p) = Some 220
  ∧ LogTimer.flushes (LogTimer.fire LogTimer.prompt_flush 220 p) = 2%nat
  ∧ LogTimer.stored (LogTimer.fire LogTimer.prompt_flush 220 p)
    = Some [Logger.entry_of a; Logger.entry_of b; Logger.entry_of c].
Proof. cbv zeta. repeat split. Qed.

Section LogTimerFacts.
Import Logger LogTimer.



End LogTimerFacts.



(** ** The log bridge *)

Section BridgeFacts.
Import Bridge.

Lemma resolve_settles v r : is_Some (settled (resolve v r)).
Proof. unfold resolve. destruct (settled r) eqn:E; simpl; eauto. Qed.

Lemma resolve_settled v r w : settled r = Some w → resolve v r = r.
Proof. unfold resolve. now intros ->. Qed.

Lemma run_task_keeps_settled task r w :
  settled r = Some w → settled (run_task task r) = Some w.
Proof.
  intros H. destruct task; simpl.
  - now rewrite (resolve_settled _ r w).
  - destruct (listening r); [|exact H].
    unfold resolve; simpl. now rewrite H.
Qed.

End BridgeFacts.

(** C8: with no responder registered, [getExtensionLogs] is still pending
    before the timeout and, from 2000 ms after the request on, has
    returned the empty list; and with or without a responder it has
    returned by then.  Time is the page's timer clock: a timer's callback
    runs when its delay has elapsed. *)
Theorem getExtensionLogs_times_out_empty
    (JSON_parse : string → option (list Logger.LogEntry)) (t0 time : Z)
    (Hparse : JSON_parse "[]" = Some [])
    (Hdue : t0 + Bridge.TIMEOUT_MS ≤ time) :
  Bridge.getExtensionLogs JSON_parse None t0 time = Some []
  ∧ (∀ earlier, earlier < t0 + Bridge.TIMEOUT_MS →
       Bridge.getExtensionLogs JSON_parse None t0 earlier = None)
  ∧ (∀ responder,
       is_Some (Bridge.getExtensionLogs JSON_parse responder t0 time)).
Proof.
  assert (Hle : (t0 + Bridge.TIMEOUT_MS <=? time) = true) by now apply Z.leb_le.
  split; [|split].
  - unfold Bridge.getExtensionLogs, Bridge.agenda, Bridge.run_until.
    cbn [fold_left]. rewrite Hle. cbn. now rewrite Hparse.
  - intros earlier Hearly.
    unfold Bridge.getExtensionLogs, Bridge.agenda, Bridge.run_until.
    cbn [fold_left].
    assert ((t0 + Bridge.TIMEOUT_MS <=? earlier) = false) as ->
      by (apply Z.leb_gt; lia).
    reflexivity.
  - intros responder.
    assert (Hs : is_Some (Bridge.settled
                  (Bridge.run_until time (Bridge.agenda responder t0)
                     (Bridge.mkRequest None true)))).
    { unfold Bridge.agenda, Bridge.run_until.
      destruct responder as [r|]; [|cbn [fold_left]; rewrite Hle; apply resolve_settles].
      destruct (Z.ltb_spec (Bridge.latency r) Bridge.TIMEOUT_MS);
        cbn [fold_left]; rewrite Hle.
      - destruct (t0 + Bridge.latency r <=? time); apply resolve_settles.
      - destruct (t0 + Bridge.latency r <=? time); [|apply resolve_settles].
        destruct (resolve_settles "[]" (Bridge.mkRequest None true)) as [w Hw].
        rewrite (run_task_keeps_settled _ _ w Hw). eauto. }
    unfold Bridge.getExtensionLogs.
    destruct Hs as [logs ->]. destruct (JSON_parse logs); eauto.
Qed.

Lemma getExtensionLogs_times_out_empty_witness :
  Bridge.parse_empty_array "[]" = Some []
  ∧ 1000 + Bridge.TIMEOUT_MS ≤ 3000
  ∧ Bridge.getExtensionLogs Bridge.parse_empty_array None 1000 3000 = Some [].
Proof.
  assert (Hparse : Bridge.parse_empty_array "[]" = Some []) by reflexivity.
  assert (Hdue : 1000 + Bridge.TIMEOUT_MS ≤ 3000) by (vm_compute; discriminate).
  split; [exact Hparse|]. split; [exact Hdue|].
  destruct (getExtensionLogs_times_out_empty Bridge.parse_empty_array
              1000 3000 Hparse Hdue) as [Hempty _].
  exact Hempty.
Defined.

(* ===================================================================== *)
(** * Further properties of the note store                                *)
(* ===================================================================== *)

Section StoreInvariant.

Lemma record_wf_no_migration now d : record_wf d → migrateNoteFormat now d = d.
Proof.
  intros (s & l & _ & Hl & _). now apply migrate_noop_on_scores with l.
Qed.

Lemma record_wf_not_legacy d : record_wf d → is_legacy d = false.
Proof.
  intros (s & l & _ & Hl & Hsc & _). unfold is_legacy. now rewrite Hsc.
Qed.

Lemma keep_last_five_Forall (P : ScoreSample → Prop) l :
  Forall P l → Forall P (keep_last_five l).
Proof.
  intros H. unfold keep_last_five, slice_last.
  destruct (5 <? length l)%nat; [now apply Forall_drop|exact H].
Qed.

Lemma hasContent_nonempty d s l :
  note d = Some s → scores d = Some l → hasContent d = true →
  s ≠ "" ∨ l ≠ [].
Proof. apply hasContent_true. Qed.

(** The record built by [saveNote] over a well-formed (or no) record is
    well formed as soon as it has content. *)
Lemma entry_after_wf env t sc found :
  (∀ d, found = Some d → record_wf d) →
  hasContent (entry_after env t sc found) = true →
  record_wf (entry_after env t sc found).
Proof.
  intros Hprev HC.
  assert (Hbase : ∃ l0 c u,
             (match found with
              | None => mkNote (Some "") None (Some [])
                          (Some (Date_now env)) (Some (Date_now env))
              | Some d => migrateNoteFormat (Date_now_migrate env) d
              end) = mkNote u None (Some l0) c.1 c.2
             ∧ (length l0 ≤ 5)%nat
             ∧ Forall (fun smp => 1 ≤ value smp ≤ 5) l0).
  { destruct found as [d|].
    - destruct (Hprev d eq_refl) as (s & l & Hs & Hl & Hsc & Hlen & Hval & _).
      rewrite (record_wf_no_migration _ d (Hprev d eq_refl)).
      exists l, (createdAt d, updatedAt d), (Some s).
      destruct d; simpl in *; subst. auto.
    - exists [], (Some (Date_now env), Some (Date_now env)), (Some "").
      repeat split; [simpl; lia|constructor]. }
  destruct Hbase as (l0 & c & u & Hbase & Hlen & Hval).
  revert HC. unfold entry_after. rewrite Hbase, note_text_trimmed.
  destruct (score_accepted sc) as [v|] eqn:Hsc; cbn; intros HC.
  - exists (JsString.trim t),
           (keep_last_five (l0 ++ [mkSample v (Date_now env)])).
    assert (Hv : 1 ≤ v ≤ 5).
    { unfold score_accepted in Hsc. destruct sc as [w|]; [|discriminate].
      destruct (Z.leb_spec 1 w), (Z.leb_spec w 5); simpl in Hsc;
        try discriminate. injection Hsc as <-. lia. }
    repeat split; try reflexivity.
    + rewrite keep_last_five_length. lia.
    + apply keep_last_five_Forall. apply Forall_app. split; [exact Hval|].
      constructor; [exact Hv|constructor].
    + right. intros Hnil. apply (f_equal length) in Hnil.
      rewrite keep_last_five_length, length_app in Hnil. cbn [length] in Hnil. lia.
  - exists (JsString.trim t), l0.
    repeat split; try reflexivity; try assumption.
    eapply (hasContent_true _ (JsString.trim t) l0); [| |exact HC]; reflexivity.
Qed.

Lemma saveNote_cache_wf env u t sc st :
  cache_wf (notesCache st) → cache_wf (notesCache (saveNote env u t sc st).2).
Proof.
  intros Hwf. rewrite saveNote_cache. cbv zeta.
  destruct (hasContent _) eqn:HC.
  - apply map_Forall_insert_2; [|exact Hwf].
    apply entry_after_wf; [|exact HC].
    intros d Hd. exact (Hwf _ _ Hd).
  - now apply map_Forall_delete.
Qed.

Lemma deleteScore_cache_wf env u i st :
  cache_wf (notesCache st) →
  cache_wf (notesCache (deleteScoreAtIndex env u i st).2).
Proof.
  intros Hwf.
  destruct (notesCache st !! normalizeUsername u) as [d|] eqn:Hd;
    [|unfold deleteScoreAtIndex; now rewrite Hd].
  destruct (scores d) as [l|] eqn:Hl;
    [|unfold deleteScoreAtIndex; now rewrite Hd, Hl].
  destruct (js_nth l i) as [smp|] eqn:Hi;
    [|unfold deleteScoreAtIndex; now rewrite Hd, Hl, Hi].
  rewrite (deleteScore_cache env u i st d l smp) by assumption. cbv zeta.
  set (d' := set_updatedAt _ _).
  destruct (hasContent d') eqn:HC; [|now apply map_Forall_delete].
  apply map_Forall_insert_2; [|exact Hwf].
  destruct (Hwf _ _ Hd) as (s & l0 & Hs & Hl0 & Hsc & Hlen & Hval & _).
  assert (l0 = l) as -> by congruence.
  exists s, (delete (Z.to_nat i) l).
  repeat split; try assumption; try reflexivity.
  - assert (is_Some (l !! Z.to_nat i)) as Hsome.
    { unfold js_nth in Hi. destruct (i <? 0); [discriminate|eauto]. }
    rewrite length_delete by exact Hsome. lia.
  - now apply Forall_delete.
  - apply (hasContent_true d'); [exact Hs|reflexivity|exact HC].
Qed.

End StoreInvariant.

Section StoreOps.

Lemma storage_set_wf ok cache stor :
  cache_wf cache →
  (∀ m, notes_key stor = Some m → cache_wf m) →
  ∀ m, notes_key (storage_set ok cache stor).2 = Some m → cache_wf m.
Proof.
  intros Hc Hs m. unfold storage_set.
  destruct ok; cbn [snd notes_key]; [intros [= <-]; exact Hc|apply Hs].
Qed.

Lemma saveNote_state env u t sc st :
  (saveNote env u t sc st).2 =
    mkContent (notesCache (saveNote env u t sc st).2)
      (storage_set (set_ok env) (notesCache (saveNote env u t sc st).2)
         (storage st)).2.
Proof. unfold saveNote, storage_set. destruct (set_ok env); reflexivity. Qed.

Lemma deleteScore_state env u i st :
  (deleteScoreAtIndex env u i st).2 = st
  ∨ (deleteScoreAtIndex env u i st).2 =
      mkContent (notesCache (deleteScoreAtIndex env u i st).2)
        (storage_set (set_ok env)
           (notesCache (deleteScoreAtIndex env u i st).2) (storage st)).2.
Proof.
  unfold deleteScoreAtIndex, storage_set.
  destruct (notesCache st !! normalizeUsername u) as [d|]; [|now left].
  destruct (scores d) as [l|]; [|now left].
  destruct (js_nth l i); [|now left].
  right. destruct (set_ok env); reflexivity.
Qed.

Lemma migrate_all_lookup clock cache k :
  migrate_all clock cache !! k =
    (fun d => if is_legacy d then migrateNoteFormat (clock k) d else d)
      <$> cache !! k.
Proof.
  unfold migrate_all. rewrite map_lookup_imap.
  destruct (cache !! k); reflexivity.
Qed.

Lemma migrate_all_id clock cache :
  map_Forall (fun _ d => is_legacy d = false) cache →
  migrate_all clock cache = cache.
Proof.
  intros H. apply map_eq. intros k. rewrite migrate_all_lookup.
  destruct (cache !! k) as [d|] eqn:E; [|reflexivity].
  simpl. now rewrite (H _ _ E).
Qed.

Lemma needs_save_false cache :
  map_Forall (fun _ d => is_legacy d = false) cache → needs_save cache = false.
Proof.
  intros H. unfold needs_save. now rewrite bool_decide_eq_true_2.
Qed.

Lemma cache_wf_not_legacy cache :
  cache_wf cache → map_Forall (fun _ d => is_legacy d = false) cache.
Proof.
  intros H k d Hd. apply record_wf_not_legacy. exact (H _ _ Hd).
Qed.

Lemma cache_wf_empty : cache_wf ∅.
Proof. apply map_Forall_empty. Qed.

Lemma stored_default_wf stor :
  (∀ m, notes_key stor = Some m → cache_wf m) →
  cache_wf (default ∅ (notes_key stor)).
Proof.
  intros H. destruct (notes_key stor) as [m|]; simpl;
    [now apply H|apply cache_wf_empty].
Qed.

(** On a well-formed store [loadNotes] reads the persisted collection as
    it is and writes nothing. *)
Lemma loadNotes_wf_state env st :
  (∀ m, notes_key (storage st) = Some m → cache_wf m) →
  load_get_ok env = true →
  loadNotes env st
  = (default ∅ (notes_key (storage st)),
     mkContent (default ∅ (notes_key (storage st))) (storage st)).
Proof.
  intros Hs Hget. unfold loadNotes. rewrite Hget.
  pose proof (cache_wf_not_legacy _ (stored_default_wf _ Hs)) as Hnl.
  now rewrite (needs_save_false _ Hnl), (migrate_all_id _ _ Hnl).
Qed.

Lemma run_store_op_wf op st :
  op_ok op → store_wf st → store_wf (run_store_op op st).
Proof.
  intros Hop [Hc Hs].
  destruct op as [env u t sc|env u i|env u|now u|env| |newValue];
    cbn [run_store_op].
  - rewrite saveNote_state.
    pose proof (saveNote_cache_wf env u t sc st Hc) as Hc'.
    split; [exact Hc'|]. now apply storage_set_wf.
  - pose proof (deleteScore_cache_wf env u i st Hc) as Hc'.
    destruct (deleteScore_state env u i st) as [->| ->]; [now split|].
    split; [exact Hc'|]. now apply storage_set_wf.
  - assert (Hc' : cache_wf (delete (normalizeUsername u) (notesCache st)))
      by now apply map_Forall_delete.
    unfold deleteNote. fold (normalizeUsername u).
    destruct (storage_set (set_ok env) _ (storage st)) as [ok stor'] eqn:E.
    split; [exact Hc'|]. cbn [snd storage].
    replace stor' with
      (storage_set (set_ok env) (delete (normalizeUsername u) (notesCache st))
         (storage st)).2 by now rewrite E.
    now apply storage_set_wf.
  - split; [|exact Hs]. cbn [notesCache]. unfold getNote.
    destruct (notesCache st !! normalizeUsername u) as [d|] eqn:Hd;
      [|exact Hc].
    cbn [snd]. rewrite (record_wf_no_migration now d (Hc _ _ Hd)).
    now rewrite insert_id.
  - destruct (load_get_ok env) eqn:Hget.
    + rewrite (loadNotes_wf_state env st Hs Hget). cbn [snd].
      split; [now apply stored_default_wf|exact Hs].
    + unfold loadNotes. rewrite Hget. now split.
  - split; [|exact Hs]. now apply stored_default_wf.
  - cbn [op_ok] in Hop. split; [exact Hop|].
    cbn [onNotesChanged storage notes_key]. intros m ->. exact Hop.
Qed.

Lemma run_store_ops_wf ops st :
  Forall op_ok ops → store_wf st → store_wf (run_store_ops ops st).
Proof.
  intros Hops. revert st.
  induction Hops as [|op ops Hop _ IH]; intros st H; [exact H|].
  simpl. apply IH. now apply run_store_op_wf.
Qed.

Lemma initial_content_wf : store_wf initial_content.
Proof. split; [apply cache_wf_empty|intros m; discriminate]. Qed.

End StoreOps.

(** X1: the content script keeps the records well formed.  From a state
    whose cached and persisted records are well formed (the empty
    collection is one), after any sequence of its operations (saving,
    deleting a sample or a note, reading a note, loading, receiving a
    change notification) in which every collection written to storage by
    another context is well formed and every username asked for is not
    the name of a member of [Object.prototype], every record of the cache
    and of the persisted copy has a text and a sample list, no legacy
    [score] field, at most five samples, each with a value between 1 and
    5, and text or samples not empty. *)
Theorem store_records_stay_well_formed
    (ops : list StoreOp) (st : ContentState) (key : string) (d : NoteData)
    (Hst : store_wf st) (Hops : Forall op_ok ops) :
  notesCache (run_store_ops ops st) !! key = Some d
  ∨ (∃ persisted,
       notes_key (storage (run_store_ops ops st)) = Some persisted
       ∧ persisted !! key = Some d) →
  ∃ s l, note d = Some s ∧ scores d = Some l ∧ score d = None
         ∧ (length l ≤ 5)%nat
         ∧ Forall (fun smp => 1 ≤ value smp ≤ 5) l
         ∧ (s ≠ "" ∨ l ≠ []).
Proof.
  destruct (run_store_ops_wf ops st Hops Hst) as [Hc Hs].
  intros [H|(persisted & Hp & H)]; [exact (Hc _ _ H)|exact (Hs _ Hp _ _ H)].
Qed.

Lemma store_records_stay_well_formed_witness :
  let imported := {[ "judy" := mkNote (Some "press") None (Some []) (Some 1) (Some 1) ]} in
  let ops := [DoSaveNote (mkEnv 10 10 true) "@Ivan" " ok " (Some 5);
              DoStorageChanged (Some imported);
              DoSaveNote (mkEnv 20 20 false) "ivan" "vip" (Some 9);
              DoGetNote 25 "Ivan";
              DoDeleteScore (mkEnv 30 30 true) "Ivan" 0;
              DoChangeDelivered] in
  let d := mkNote (Some "press") None (Some []) (Some 1) (Some 1) in
  notesCache (run_store_ops ops initial_content) !! "judy" = Some d
  ∧ ∃ s l, note d = Some s ∧ scores d = Some l ∧ (length l ≤ 5)%nat.
Proof.
  cbv zeta.
  set (imported := {[ "judy" := mkNote (Some "press") None (Some []) (Some 1) (Some 1) ]}
                   : gmap string NoteData).
  set (ops := [DoSaveNote (mkEnv 10 10 true) "@Ivan" " ok " (Some 5);
               DoStorageChanged (Some imported);
               DoSaveNote (mkEnv 20 20 false) "ivan" "vip" (Some 9);
               DoGetNote 25 "Ivan";
               DoDeleteScore (mkEnv 30 30 true) "Ivan" 0;
               DoChangeDelivered]).
  assert (H : notesCache (run_store_ops ops initial_content) !! "judy"
              = Some (mkNote (Some "press") None (Some []) (Some 1) (Some 1)))
    by (vm_compute; reflexivity).
  assert (Himp : cache_wf imported).
  { unfold imported. apply map_Forall_singleton.
    exists "press", []. repeat split; [simpl; lia|constructor|left; discriminate]. }
  assert (Hops : Forall op_ok ops)
    by (unfold ops; repeat constructor; exact Himp).
  split; [exact H|].
  destruct (store_records_stay_well_formed ops initial_content _ _
              initial_content_wf Hops (or_introl H))
    as (s & l & Hs & Hl & _ & Hlen & _).
  exists s, l. auto.
Defined.

Section StoreFrame.

Lemma deleteNote_cache env u st :
  notesCache (deleteNote env u st).2 = delete (normalizeUsername u) (notesCache st).
Proof.
  unfold deleteNote, storage_set. fold (normalizeUsername u).
  destruct (set_ok env); reflexivity.
Qed.

Lemma deleteScore_cache_cases env u i st :
  notesCache (deleteScoreAtIndex env u i st).2 = notesCache st
  ∨ (∃ d, notesCache (deleteScoreAtIndex env u i st).2
          = <[normalizeUsername u := d]> (notesCache st))
  ∨ notesCache (deleteScoreAtIndex env u i st).2
    = delete (normalizeUsername u) (notesCache st).
Proof.
  destruct (notesCache st !! normalizeUsername u) as [d|] eqn:Hd;
    [|left; unfold deleteScoreAtIndex; now rewrite Hd].
  destruct (scores d) as [l|] eqn:Hl;
    [|left; unfold deleteScoreAtIndex; now rewrite Hd, Hl].
  destruct (js_nth l i) as [smp|] eqn:Hi;
    [|left; unfold deleteScoreAtIndex; now rewrite Hd, Hl, Hi].
  right. rewrite (deleteScore_cache env u i st d l smp) by assumption.
  cbv zeta. destruct (hasContent _); eauto.
Qed.

End StoreFrame.

(** X2: [saveNote], [deleteScoreAtIndex] and [deleteNote] for one user
    leave the record of every other key of the cache as it was. *)
Theorem writes_touch_one_record
    (env : Env) (username key : string) (st : ContentState)
    (Hother : key ≠ normalizeUsername username) :
  (∀ noteText score,
     notesCache (saveNote env username noteText score st).2 !! key
     = notesCache st !! key)
  ∧ (∀ index,
       notesCache (deleteScoreAtIndex env username index st).2 !! key
       = notesCache st !! key)
  ∧ notesCache (deleteNote env username st).2 !! key = notesCache st !! key.
Proof.
  split; [|split].
  - intros noteText score. rewrite saveNote_cache. cbv zeta.
    destruct (hasContent _);
      [now rewrite lookup_insert_ne|now rewrite lookup_delete_ne].
  - intros index.
    destruct (deleteScore_cache_cases env username index st)
      as [->|[[d ->]| ->]];
      [reflexivity|now rewrite lookup_insert_ne|now rewrite lookup_delete_ne].
  - rewrite deleteNote_cache. now rewrite lookup_delete_ne.
Qed.

Lemma writes_touch_one_record_witness :
  let st := (saveNote (mkEnv 10 10 true) "Judy" "friend" (Some 4)
               initial_content).2 in
  "judy" ≠ normalizeUsername "@Mallory"
  ∧ notesCache (deleteNote (mkEnv 20 20 true) "@Mallory" st).2 !! "judy"
    = notesCache st !! "judy".
Proof.
  cbv zeta.
  assert (H : "judy" ≠ normalizeUsername "@Mallory") by (vm_compute; discriminate).
  split; [exact H|].
  destruct (writes_touch_one_record (mkEnv 20 20 true) "@Mallory" "judy"
              (saveNote (mkEnv 10 10 true) "Judy" "friend" (Some 4)
                 initial_content).2 H) as (_ & _ & Hdel).
  exact Hdel.
Defined.







Section AverageRange.

Ltac qc_to_q :=
  unfold Qcle, Qclt, Qcdiv, Qcminus, Qcopp, Qcinv, Qcmult, Qcplus, Z2Qc in *;
  cbn [this Q2Qc] in *;
  rewrite ?Qred_correct in *.

Lemma sum_values_from acc l :
  Forall (fun smp => 1 ≤ value smp ≤ 5) l →
  acc + Z.of_nat (length l)
  ≤ fold_left (fun a s => a + value s) l acc
  ≤ acc + 5 * Z.of_nat (length l).
Proof.
  intros H. revert acc. induction H as [|s l Hs _ IH]; intros acc.
  - simpl. lia.
  - cbn [fold_left length]. specialize (IH (acc + value s)). lia.
Qed.

Lemma sum_values_bounds l :
  Forall (fun smp => 1 ≤ value smp ≤ 5) l →
  Z.of_nat (length l) ≤ sum_values l ≤ 5 * Z.of_nat (length l).
Proof. intros H. apply (sum_values_from 0 l H). Qed.

(** [Math.round] of a number between two integers lies between them. *)
Lemma Math_round_range (a b : Z) (x : Qc) :
  (Z2Qc a <= x)%Qc → (x <= Z2Qc b)%Qc → a ≤ Math_round x ≤ b.
Proof.
  intros Ha Hb. destruct (Math_round_bounds x) as [Hle Hlt].
  set (m := Math_round x) in *. clearbody m.
  qc_to_q. set (q := this x) in *. clearbody q.
  change (inject_Z 1) with (1#1)%Q in *.
  change (inject_Z 2) with (2#1)%Q in *.
  change (/ 2)%Q with (1#2)%Q in *.
  assert (H1 : (inject_Z m < inject_Z (b + 1))%Q)
    by (rewrite inject_Z_plus; change (inject_Z 1) with (1#1)%Q; lra).
  assert (H2 : (inject_Z a < inject_Z (m + 1))%Q)
    by (rewrite inject_Z_plus; change (inject_Z 1) with (1#1)%Q; lra).
  rewrite <- Zlt_Qlt in H1, H2. lia.
Qed.

Lemma mean_within_scale l :
  l ≠ [] → Forall (fun smp => 1 ≤ value smp ≤ 5) l →
  (Z2Qc 10 <= mean l * Z2Qc 10)%Qc ∧ (mean l * Z2Qc 10 <= Z2Qc 50)%Qc.
Proof.
  intros Hne Hval. pose proof (sum_values_bounds l Hval) as [Hlo Hhi].
  assert (Hpos : 0 < Z.of_nat (length l)) by (destruct l; [contradiction|simpl; lia]).
  unfold mean. set (sum := sum_values l) in *. clearbody sum.
  set (n := Z.of_nat (length l)) in *. clearbody n.
  qc_to_q.
  assert (Hn : (0 < inject_Z n)%Q).
  { change 0%Q with (inject_Z 0). now rewrite <- Zlt_Qlt. }
  assert (H1 : (1 <= inject_Z sum / inject_Z n)%Q).
  { apply Qle_shift_div_l; [exact Hn|]. rewrite Qmult_1_l.
    now rewrite <- Zle_Qle. }
  assert (H5 : (inject_Z sum / inject_Z n <= 5)%Q).
  { apply Qle_shift_div_r; [exact Hn|].
    change 5%Q with (inject_Z 5). rewrite <- inject_Z_mult.
    now rewrite <- Zle_Qle. }
  unfold Qdiv in H1, H5.
  set (q := (inject_Z sum * / inject_Z n)%Q) in *. clearbody q.
  change (inject_Z 10) with (10#1)%Q. change (inject_Z 50) with (50#1)%Q.
  split; lra.
Qed.

Lemma tenths_within_scale (k : Z) :
  10 ≤ k ≤ 50 →
  (Z2Qc 1 <= Z2Qc k / Z2Qc 10)%Qc ∧ (Z2Qc k / Z2Qc 10 <= Z2Qc 5)%Qc.
Proof.
  intros [Hlo Hhi]. qc_to_q.
  rewrite Zle_Qle in Hlo, Hhi.
  set (q := inject_Z k) in *. clearbody q.
  change (inject_Z 10) with (10#1)%Q in *.
  change (inject_Z 50) with (50#1)%Q in *.
  change (inject_Z 1) with (1#1)%Q. change (inject_Z 5) with (5#1)%Q.
  change (/ 10)%Q with (1#10)%Q.
  split; lra.
Qed.

End AverageRange.

(** X6: [getAverageScore] is [null] exactly when [getScores] is empty.
    When the user's samples all have a value between 1 and 5, as in every
    well-formed collection and so in every state the content script
    reaches under the conditions of [op_ok], the average lies between 1
    and 5 and the colour tier [Math.max(1, Math.min(5, Math.round(avg)))]
    is just the rounded average: the clamp does not act.  For any number
    the tier is between 1 and 5. *)
Theorem average_and_tier_within_scale :
  (∀ (username : string) (cache : gmap string NoteData),
     getAverageScore username cache = None ↔ getScores username cache = [])
  ∧ (∀ (username : string) (cache : gmap string NoteData) (avg : Qc),
       Forall (fun smp => 1 ≤ value smp ≤ 5) (getScores username cache) →
       getAverageScore username cache = Some avg →
       (Z2Qc 1 <= avg)%Qc ∧ (avg <= Z2Qc 5)%Qc
       ∧ colorTier avg = Math_round avg)
  ∧ (∀ (ops : list StoreOp) (st : ContentState) (username : string),
       store_wf st → Forall op_ok ops →
       Forall (fun smp => 1 ≤ value smp ≤ 5)
              (getScores username (notesCache (run_store_ops ops st))))
  ∧ (∀ x : Qc, 1 ≤ colorTier x ≤ 5).
Proof.
  split; [|split; [|split]].
  - intros username cache. unfold getAverageScore, getScores.
    destruct (cache !! normalizeUsername username) as [d|]; [|tauto].
    destruct (scores d) as [[|s l]|]; simpl; split; try tauto; discriminate.
  - intros username cache avg Hval Havg. unfold getScores in Hval.
    destruct (cache !! normalizeUsername username) as [d|] eqn:Hd;
      [|unfold getAverageScore in Havg; rewrite Hd in Havg; discriminate].
    destruct (scores d) as [l|] eqn:Hl;
      [|unfold getAverageScore in Havg; rewrite Hd, Hl in Havg; discriminate].
    cbn [default] in Hval.
    destruct l as [|s0 l'];
      [unfold getAverageScore in Havg; rewrite Hd, Hl in Havg; discriminate|].
    rewrite (getAverageScore_some _ _ d (s0 :: l') Hd Hl) in Havg
      by discriminate.
    injection Havg as <-.
    destruct (mean_within_scale (s0 :: l') ltac:(discriminate) Hval)
      as [Hlo Hhi].
    pose proof (Math_round_range 10 50 _ Hlo Hhi) as Hk.
    destruct (tenths_within_scale _ Hk) as [H1 H5].
    split; [exact H1|]. split; [exact H5|].
    pose proof (Math_round_range 1 5 _ H1 H5). unfold colorTier. lia.
  - intros ops st username Hst Hops.
    destruct (run_store_ops_wf ops st Hops Hst) as [Hc _].
    unfold getScores.
    destruct (notesCache (run_store_ops ops st) !! normalizeUsername username)
      as [d|] eqn:Hd; [|constructor].
    destruct (Hc _ _ Hd) as (s & l & _ & -> & _ & _ & Hval & _). exact Hval.
  - intros x. unfold colorTier. lia.
Qed.

Lemma average_and_tier_within_scale_witness :
  let cache := notesCache
                 (run_store_ops
                    [DoSaveNote (mkEnv 10 10 true) "Peggy" "" (Some 4);
                     DoSaveNote (mkEnv 20 20 true) "Peggy" "" (Some 5)]
                    initial_content) in
  getAverageScore "peggy" cache = Some (Z2Qc 45 / Z2Qc 10)%Qc
  ∧ colorTier (Z2Qc 45 / Z2Qc 10)%Qc = 5
  ∧ getScores "peggy" cache ≠ [].
Proof.
  cbv zeta.
  set (ops := [DoSaveNote (mkEnv 10 10 true) "Peggy" "" (Some 4);
               DoSaveNote (mkEnv 20 20 true) "Peggy" "" (Some 5)]).
  assert (Havg : getAverageScore "peggy"
                   (notesCache (run_store_ops ops initial_content))
                 = Some (Z2Qc 45 / Z2Qc 10)%Qc).
  { erewrite getAverageScore_some;
      [|vm_compute; reflexivity|reflexivity|discriminate].
    f_equal; apply Qc_is_canon; reflexivity. }
  assert (Hops : Forall op_ok ops) by (unfold ops; repeat constructor).
  destruct average_and_tier_within_scale as (Hnull & Hrange & Hrun & _).
  split; [exact Havg|]. split.
  - destruct (Hrange _ _ _ (Hrun ops initial_content "peggy"
                              initial_content_wf Hops) Havg) as (_ & _ & ->).
    reflexivity.
  - intros Hempty. apply Hnull in Hempty. congruence.
Defined.

Section LoadNotesFacts.

Lemma migrate_not_legacy now d : is_legacy (migrateNoteFormat now d) = false.
Proof.
  destruct (migrate_has_scores now d) as [l Hl]. unfold is_legacy.
  rewrite Hl. now destruct (score _).
Qed.

Lemma migrate_all_not_legacy clock cache :
  map_Forall (fun _ d => is_legacy d = false) (migrate_all clock cache).
Proof.
  intros k d. rewrite migrate_all_lookup.
  destruct (cache !! k) as [d0|]; [|discriminate].
  simpl. intros [= <-].
  destruct (is_legacy d0) eqn:E; [apply migrate_not_legacy|exact E].
Qed.

Lemma needs_save_true cache :
  needs_save cache = true ↔ ∃ k d, cache !! k = Some d ∧ is_legacy d = true.
Proof.
  unfold needs_save. rewrite negb_true_iff, bool_decide_eq_false.
  rewrite map_not_Forall by (intros ? ?; apply _).
  split; intros (k & d & Hd & Hl); exists k, d; split; try exact Hd.
  - now destruct (is_legacy d).
  - now rewrite Hl.
Qed.

End LoadNotesFacts.

(** X7: when the read succeeds, [loadNotes] makes the cache the persisted
    collection with every legacy record (a [score] field and no [scores])
    migrated and every other record as stored, so that no cached record
    is legacy afterwards.  It writes the collection back exactly when some
    stored record was legacy.  After a load whose calls succeeded, another
    load changes neither the cache nor the persisted copy and writes
    nothing. *)
Theorem loadNotes_migrates_once
    (env : LoadEnv) (st : ContentState) (Hget : load_get_ok env = true) :
  let stored := default ∅ (notes_key (storage st)) in
  let st' := (loadNotes env st).2 in
  (∀ k, notesCache st' !! k =
          (fun d => if is_legacy d
                    then migrateNoteFormat (load_clock env k) d else d)
            <$> stored !! k)
  ∧ map_Forall (fun _ d => is_legacy d = false) (notesCache st')
  ∧ ((∃ k d, stored !! k = Some d ∧ is_legacy d = true) →
     set_calls (storage st') = S (set_calls (storage st)))
  ∧ ((∀ k d, stored !! k = Some d → is_legacy d = false) →
     storage st' = storage st ∧ notesCache st' = stored)
  ∧ (load_set_ok env = true →
     ∀ env', load_get_ok env' = true →
       loadNotes env' st' = (notesCache st', st')).
Proof.
  cbv zeta.
  assert (Hcache : notesCache (loadNotes env st).2
                   = migrate_all (load_clock env) (default ∅ (notes_key (storage st)))).
  { unfold loadNotes, storage_set. rewrite Hget.
    destruct (needs_save _); [|reflexivity].
    destruct (load_set_ok env); reflexivity. }
  split; [intros k; rewrite Hcache; apply migrate_all_lookup|].
  split; [rewrite Hcache; apply migrate_all_not_legacy|].
  split; [|split].
  - intros Hex. apply needs_save_true in Hex.
    unfold loadNotes, storage_set. rewrite Hget, Hex.
    destruct (load_set_ok env); reflexivity.
  - intros Hnone.
    unfold loadNotes. rewrite Hget, (needs_save_false _ Hnone).
    cbn [snd storage notesCache]. split; [reflexivity|].
    now apply migrate_all_id.
  - intros Hset env' Hget'.
    assert (Hstored : default ∅ (notes_key (storage (loadNotes env st).2))
                      = notesCache (loadNotes env st).2).
    { rewrite Hcache. unfold loadNotes, storage_set. rewrite Hget, Hset.
      destruct (needs_save _) eqn:Hn; cbn [snd storage notes_key default];
        [reflexivity|].
      symmetry. apply migrate_all_id.
      intros k d Hd. destruct (is_legacy d) eqn:E; [|reflexivity].
      assert (needs_save (default ∅ (notes_key (storage st))) = true)
        by (apply needs_save_true; eauto).
      congruence. }
    assert (Hnl : map_Forall (fun _ d => is_legacy d = false)
                    (default ∅ (notes_key (storage (loadNotes env st).2)))).
    { rewrite Hstored, Hcache. apply migrate_all_not_legacy. }
    unfold loadNotes at 1. rewrite Hget', (needs_save_false _ Hnl).
    rewrite (migrate_all_id _ _ Hnl), Hstored.
    f_equal. now destruct (loadNotes env st).2.
Qed.

Lemma loadNotes_migrates_once_witness :
  let legacy := mkNote (Some "old") (Some (Some 3)) None (Some 5) (Some 7) in
  let st := mkContent ∅ (mkStorage (Some {[ "quinn" := legacy ]}) 0) in
  let env := mkLoadEnv true true (fun _ => 99) in
  notesCache (loadNotes env st).2 !! "quinn"
    = Some (mkNote (Some "old") None (Some [mkSample 3 7]) (Some 5) (Some 7))
  ∧ set_calls (storage (loadNotes env st).2) = 1%nat
  ∧ set_calls (storage (loadNotes env (loadNotes env st).2).2) = 1%nat.
Proof.
  cbv zeta.
  destruct (loadNotes_migrates_once (mkLoadEnv true true (fun _ => 99))
              (mkContent ∅
                 (mkStorage
                    (Some {[ "quinn" :=
                               mkNote (Some "old") (Some (Some 3)) None
                                 (Some 5) (Some 7) ]}) 0)) eq_refl)
    as (Hlook & _ & Hwrite & _ & Hagain).
  split; [rewrite Hlook; vm_compute; reflexivity|].
  split.
  - apply Hwrite. exists "quinn", (mkNote (Some "old") (Some (Some 3)) None
                                     (Some 5) (Some 7)).
    split; [vm_compute; reflexivity|reflexivity].
  - rewrite (Hagain eq_refl (mkLoadEnv true true (fun _ => 99)) eq_refl).
    cbn [snd]. vm_compute. reflexivity.
Defined.

(** X8: when storage is unavailable [loadNotes] returns the empty
    collection.  If the read fails, the state is untouched; if the write
    of the migrated collection fails, the cache nevertheless holds the
    migrated collection while the persisted copy keeps the legacy one. *)
Theorem loadNotes_storage_unavailable (env : LoadEnv) (st : ContentState) :
  (load_get_ok env = false → loadNotes env st = (∅, st))
  ∧ (load_get_ok env = true → load_set_ok env = false →
     needs_save (default ∅ (notes_key (storage st))) = true →
     (loadNotes env st).1 = ∅
     ∧ notesCache (loadNotes env st).2
       = migrate_all (load_clock env) (default ∅ (notes_key (storage st)))
     ∧ notes_key (storage (loadNotes env st).2) = notes_key (storage st)).
Proof.
  split.
  - intros Hget. unfold loadNotes. now rewrite Hget.
  - intros Hget Hset Hneeds. unfold loadNotes, storage_set.
    rewrite Hget, Hneeds, Hset. repeat split.
Qed.

Lemma loadNotes_storage_unavailable_witness :
  let legacy := mkNote (Some "old") (Some None) None (Some 5) (Some 7) in
  let st := mkContent ∅ (mkStorage (Some {[ "rupert" := legacy ]}) 0) in
  (loadNotes (mkLoadEnv true false (fun _ => 99)) st).1 = ∅
  ∧ loadNotes (mkLoadEnv false true (fun _ => 99)) st = (∅, st).
Proof.
  cbv zeta.
  destruct (loadNotes_storage_unavailable (mkLoadEnv true false (fun _ => 99))
              (mkContent ∅
                 (mkStorage
                    (Some {[ "rupert" :=
                               mkNote (Some "old") (Some None) None
                                 (Some 5) (Some 7) ]}) 0)))
    as [_ Hset].
  destruct (Hset eq_refl eq_refl ltac:(vm_compute; reflexivity)) as (Hret & _).
  split; [exact Hret|].
  destruct (loadNotes_storage_unavailable (mkLoadEnv false true (fun _ => 99))
              (mkContent ∅
                 (mkStorage
                    (Some {[ "rupert" :=
                               mkNote (Some "old") (Some None) None
                                 (Some 5) (Some 7) ]}) 0)))
    as [Hget _].
  exact (Hget eq_refl).
Defined.

(** X9: [getNote] returns nothing for a user without record, provided
    the user's key is not the name of a member of [Object.prototype] (at
    such a name the lookup finds the inherited member); for a user with a
    record it returns the record in the migrated form, which always has a
    sample list, and the cache holds that very record afterwards (the
    migration is done on the cached object).  Other keys are untouched,
    and a second [getNote] returns the same record and changes nothing. *)
Theorem getNote_migrates_in_place
    (now now' : Z) (username : string) (cache : gmap string NoteData) :
  (cache !! normalizeUsername username = None →
   inherited (normalizeUsername username) = false →
   getNote now username cache = (None, cache))
  ∧ (∀ d, cache !! normalizeUsername username = Some d →
       ∃ d', getNote now username cache
               = (Some d', <[normalizeUsername username := d']> cache)
             ∧ d' = migrateNoteFormat now d
             ∧ is_Some (scores d')
             ∧ getNote now' username (<[normalizeUsername username := d']> cache)
               = (Some d', <[normalizeUsername username := d']> cache))
  ∧ (∀ key, key ≠ normalizeUsername username →
       (getNote now username cache).2 !! key = cache !! key).
Proof.
  split; [|split].
  - intros Hnone _. unfold getNote. now rewrite Hnone.
  - intros d Hd. exists (migrateNoteFormat now d).
    split; [unfold getNote; now rewrite Hd|]. split; [reflexivity|].
    split; [apply migrate_has_scores|].
    unfold getNote. rewrite lookup_insert_eq, migrate_idempotent.
    now rewrite insert_insert_eq.
  - intros key Hkey. unfold getNote.
    destruct (cache !! normalizeUsername username); [|reflexivity].
    cbn [snd]. now rewrite lookup_insert_ne.
Qed.

Lemma getNote_migrates_in_place_witness :
  let legacy := mkNote (Some "old") (Some (Some 2)) None (Some 5) None in
  let migrated := mkNote (Some "old") None (Some [mkSample 2 42]) (Some 5) None in
  (getNote 42 "@Sybil" {[ "sybil" := legacy ]}).1 = Some migrated
  ∧ (getNote 42 "@Sybil" {[ "sybil" := legacy ]}).2 !! "sybil" = Some migrated
  ∧ (getNote 42 "@Trent" {[ "sybil" := legacy ]}).1 = None.
Proof.
  cbv zeta.
  destruct (getNote_migrates_in_place 42 42 "@Trent"
              {[ "sybil" := mkNote (Some "old") (Some (Some 2)) None (Some 5) None ]})
    as (Hnone & _ & _).
  rewrite (Hnone ltac:(vm_compute; reflexivity) ltac:(vm_compute; reflexivity)).
  destruct (getNote_migrates_in_place 42 42 "@Sybil"
              {[ "sybil" := mkNote (Some "old") (Some (Some 2)) None (Some 5) None ]})
    as (_ & Hsome & _).
  destruct (Hsome (mkNote (Some "old") (Some (Some 2)) None (Some 5) None)
              ltac:(vm_compute; reflexivity)) as (d' & Hget & -> & _).
  rewrite Hget. cbn [fst snd]. split; [reflexivity|]. split; [|reflexivity].
  change "sybil" with (normalizeUsername "@Sybil") at 1.
  now rewrite lookup_insert_eq.
Defined.

(* ===================================================================== *)
(** * Further properties of the log pipeline                              *)
(* ===================================================================== *)

Section LogApiFacts.
Import Logger LogApi.

Lemma interleave_while_flushing ev st :
  isFlushing st = true →
  isFlushing (interleave ev st) = true
  ∧ logQueue (interleave ev st) = logQueue st ++ logged_during [ev].
Proof.
  intros Hf. destruct ev as [c|]; cbn [interleave logged_during omap].
  - rewrite xpnLog_isFlushing, xpnLog_queue. auto.
  - unfold flushLogs_begin. rewrite Hf, orb_true_r. cbn.
    now rewrite app_nil_r.
Qed.

Lemma during_while_flushing evs st :
  isFlushing st = true →
  isFlushing (fold_left (fun acc ev => interleave ev acc) evs st) = true
  ∧ logQueue (fold_left (fun acc ev => interleave ev acc) evs st)
    = logQueue st ++ logged_during evs.
Proof.
  revert st. induction evs as [|ev evs IH]; intros st Hf.
  - cbn. now rewrite app_nil_r.
  - cbn [fold_left].
    destruct (interleave_while_flushing ev st Hf) as [Hf' Hq'].
    destruct (IH _ Hf') as [Hf'' Hq'']. split; [exact Hf''|].
    rewrite Hq'', Hq', <- app_assoc. f_equal.
    change (ev :: evs) with ([ev] ++ evs).
    unfold logged_during. now rewrite omap_app.
Qed.

(** The state a flush leaves when it started on an idle module. *)
Lemma flushLogs_idle env st stor :
  logQueue st ≠ [] → isFlushing st = false →
  let r := flushLogs env st stor in
  r.2 = flushLogs_try (get_ok env) (set_ok env) (logQueue st) stor
  ∧ logQueue r.1 = logged_during (during env)
  ∧ isFlushing r.1 = false
  ∧ (logged_during (during env) ≠ [] → is_Some (flushTimeout r.1)).
Proof.
  intros Hq Hidle. cbv zeta. unfold flushLogs.
  rewrite (flushLogs_begin_drains st Hq Hidle). cbn [fst snd].
  destruct (during_while_flushing (during env) (mkLogger [] None true) eq_refl)
    as [_ Hqueue].
  cbn [logQueue app] in Hqueue.
  set (st2 := fold_left _ (during env) _) in *.
  split; [reflexivity|].
  unfold flushLogs_finally.
  destruct ((0 <? length (logQueue st2))%nat
            && negb (bool_decide (is_Some (flushTimeout st2)))) eqn:E;
    cbn [logQueue isFlushing flushTimeout].
  - repeat split; eauto.
  - repeat split; [exact Hqueue|]. intros Hne.
    apply andb_false_iff in E as [E|E].
    + rewrite Hqueue in E. destruct (logged_during (during env));
        [contradiction|discriminate].
    + apply negb_false_iff, bool_decide_eq_true in E. exact E.
Qed.

End LogApiFacts.

(** [xpnGetLogs] with queued entries and no flush under way. *)
Lemma xpnGetLogs_flushes_queue
    (env : LogApi.GetEnv) (st : Logger.LoggerState) (stor : Logger.LogStorage)
    (Hread : LogApi.read_ok env = true)
    (Hidle : Logger.isFlushing st = false) (Hq : Logger.logQueue st ≠ [])
    (Hget : Logger.get_ok (LogApi.flush_env env) = true)
    (Hset : Logger.set_ok (LogApi.flush_env env) = true) :
  let r := LogApi.xpnGetLogs env st stor in
  let combined := default [] stor ++ Logger.logQueue st in
  r.1.1 = drop (length combined - 1000) combined
  ∧ r.2 = Some r.1.1
  ∧ (length combined ≤ 1000 → r.1.1 = combined)%nat
  ∧ Logger.logQueue r.1.2
    = LogApi.logged_during (Logger.during (LogApi.flush_env env))
  ∧ Logger.isFlushing r.1.2 = false.
Proof.
  cbv zeta. unfold LogApi.xpnGetLogs. cbn [Logger.logQueue]. rewrite Hread.
  assert ((0 <? length (Logger.logQueue st))%nat = true) as ->
    by (destruct (Logger.logQueue st); [contradiction|reflexivity]).
  destruct (flushLogs_idle (LogApi.flush_env env)
              (Logger.mkLogger (Logger.logQueue st) None (Logger.isFlushing st))
              stor Hq Hidle) as (Hstor & Hqueue & Hflag & _).
  destruct (Logger.flushLogs _ _ stor) as [st2 stor2].
  cbn [fst snd Logger.logQueue] in *.
  unfold Logger.flushLogs_try in Hstor. rewrite Hget, Hset in Hstor.
  rewrite trim_logs_is_suffix in Hstor. subst stor2. cbn [default].
  repeat split; try assumption.
  intros Hshort.
  replace (length (default [] stor ++ Logger.logQueue st)
           - Logger.XPN_MAX_LOGS)%nat with 0%nat
    by (unfold Logger.XPN_MAX_LOGS; lia).
  reflexivity.
Qed.

(** [xpnGetLogs] with nothing queued. *)
Lemma xpnGetLogs_empty_queue
    (env : LogApi.GetEnv) (st : Logger.LoggerState) (stor : Logger.LogStorage)
    (Hread : LogApi.read_ok env = true) (Hq : Logger.logQueue st = []) :
  let r := LogApi.xpnGetLogs env st stor in
  r.1.1 = default [] stor ∧ r.2 = stor
  ∧ r.1.2 = Logger.mkLogger [] None (Logger.isFlushing st).
Proof.
  cbv zeta. unfold LogApi.xpnGetLogs. cbn [Logger.logQueue]. rewrite Hread.
  rewrite Hq. cbn. repeat split.
Qed.

(** X10: [xpnGetLogs] cancels the timer and flushes before it reads.  When
    no flush is under way and the storage calls succeed, it returns the
    persisted list followed by every queued entry in order, cut to its
    last 1000 entries, and leaves that list persisted; the queue then holds
    only what was logged meanwhile.  With an empty queue it returns the
    persisted list and writes nothing.  But while a flush is under way it
    returns only what is persisted: the queued entries stay in the queue
    and are not in the result. *)
Theorem xpnGetLogs_reads_after_flush
    (env : LogApi.GetEnv) (st : Logger.LoggerState) (stor : Logger.LogStorage)
    (Hread : LogApi.read_ok env = true) :
  let r := LogApi.xpnGetLogs env st stor in
  let combined := default [] stor ++ Logger.logQueue st in
  (Logger.isFlushing st = false → Logger.logQueue st ≠ [] →
   Logger.get_ok (LogApi.flush_env env) = true →
   Logger.set_ok (LogApi.flush_env env) = true →
   r.1.1 = drop (length combined - 1000) combined
   ∧ r.2 = Some r.1.1
   ∧ (length combined ≤ 1000 → r.1.1 = combined)%nat
   ∧ Logger.logQueue r.1.2
     = LogApi.logged_during (Logger.during (LogApi.flush_env env))
   ∧ Logger.isFlushing r.1.2 = false)
  ∧ (Logger.logQueue st = [] →
     r.1.1 = default [] stor ∧ r.2 = stor
     ∧ r.1.2 = Logger.mkLogger [] None (Logger.isFlushing st))
  ∧ (Logger.isFlushing st = true →
     r.1.1 = default [] stor ∧ r.2 = stor
     ∧ Logger.logQueue r.1.2 = Logger.logQueue st).
Proof.
  cbv zeta. split; [|split].
  - intros Hidle Hq Hget Hset.
    exact (xpnGetLogs_flushes_queue env st stor Hread Hidle Hq Hget Hset).
  - intros Hq. exact (xpnGetLogs_empty_queue env st stor Hread Hq).
  - unfold LogApi.xpnGetLogs. cbn [Logger.logQueue]. rewrite Hread.
    intros Hfly.
    destruct (0 <? length (Logger.logQueue st))%nat; [|repeat split].
    unfold Logger.flushLogs, Logger.flushLogs_begin.
    cbn [Logger.isFlushing Logger.logQueue]. rewrite Hfly, orb_true_r.
    repeat split.
Qed.

Lemma xpnGetLogs_reads_after_flush_witness :
  let a := Logger.mkCall 5 "content" "log" [Logger.ArgOther "scan"] in
  let b := Logger.mkCall 7 "content" "warn" [Logger.ArgOther "slow"] in
  let st := Logger.xpnLogs [a; b] Logger.initial_logger in
  let env := LogApi.mkGetEnv (Logger.mkFlushEnv true true [] 9) true in
  (LogApi.xpnGetLogs env st None).1.1
  = [Logger.mkEntry 5 "content" "log" "scan";
     Logger.mkEntry 7 "content" "warn" "slow"].
Proof.
  cbv zeta.
  destruct (xpnGetLogs_reads_after_flush
              (LogApi.mkGetEnv (Logger.mkFlushEnv true true [] 9) true)
              (Logger.xpnLogs
                 [Logger.mkCall 5 "content" "log" [Logger.ArgOther "scan"];
                  Logger.mkCall 7 "content" "warn" [Logger.ArgOther "slow"]]
                 Logger.initial_logger)
              None eq_refl) as [Hidle _].
  destruct (Hidle eq_refl ltac:(discriminate) eq_refl eq_refl)
    as (_ & _ & Hall & _).
  rewrite Hall; [reflexivity|vm_compute; lia].
Defined.



(** X12: a flush whose storage read or write fails loses its batch: the
    persisted list is as before, and the entries that were queued when the
    flush started are not put back; afterwards the queue holds only what
    was logged during the flush, for which a timer is armed. *)
Theorem flushLogs_failure_drops_batch
    (env : Logger.FlushEnv) (st : Logger.LoggerState) (stor : Logger.LogStorage)
    (Hqueue : Logger.logQueue st ≠ [])
    (Hidle : Logger.isFlushing st = false)
    (Hfail : Logger.get_ok env = false ∨ Logger.set_ok env = false) :
  let r := Logger.flushLogs env st stor in
  r.2 = stor
  ∧ Logger.logQueue r.1 = LogApi.logged_during (Logger.during env)
  ∧ Logger.isFlushing r.1 = false
  ∧ (LogApi.logged_during (Logger.during env) ≠ [] →
     is_Some (Logger.flushTimeout r.1)).
Proof.
  destruct (flushLogs_idle env st stor Hqueue Hidle) as (Hstor & Hq & Hf & Ht).
  cbv zeta. split; [|auto].
  rewrite Hstor. unfold Logger.flushLogs_try.
  destruct Hfail as [-> | ->]; [reflexivity|].
  now destruct (Logger.get_ok env).
Qed.

Lemma flushLogs_failure_drops_batch_witness :
  let a := Logger.mkCall 5 "content" "log" [Logger.ArgOther "scan"] in
  let late := Logger.mkCall 9 "content" "warn" [Logger.ArgOther "slow"] in
  let r := Logger.flushLogs (Logger.mkFlushEnv true false [Logger.ILog late] 12)
             (Logger.xpnLogs [a] Logger.initial_logger) None in
  r.2 = None
  ∧ Logger.logQueue r.1 = [Logger.mkEntry 9 "content" "warn" "slow"].
Proof.
  cbv zeta.
  destruct (flushLogs_failure_drops_batch
              (Logger.mkFlushEnv true false
                 [Logger.ILog (Logger.mkCall 9 "content" "warn" [Logger.ArgOther "slow"])]
                 12)
              (Logger.xpnLogs
                 [Logger.mkCall 5 "content" "log" [Logger.ArgOther "scan"]]
                 Logger.initial_logger)
              None ltac:(discriminate) eq_refl (or_intror eq_refl))
    as (Hstor & Hq & _).
  split; [exact Hstor|exact Hq].
Defined.

Section LoggerInvariant.
Import Logger LogApi.

Lemma flushLogs_begin_pending st : flush_pending (flushLogs_begin st).2.
Proof.
  unfold flushLogs_begin, flush_pending.
  destruct (logQueue st) as [|e q] eqn:Hq; cbn.
  - intros H. now contradiction H.
  - destruct (isFlushing st) eqn:Hf; cbn; [auto|].
    intros H. now contradiction H.
Qed.

Lemma logger_step_pending ev st :
  flush_pending st → flush_pending (logger_step ev st).
Proof.
  intros Hp. destruct ev as [c| |now| |]; cbn [logger_step].
  - intros _. left. unfold xpnLog. destruct (flushTimeout st); cbn; eauto.
  - apply flushLogs_begin_pending.
  - unfold flushLogs_finally, flush_pending.
    destruct (logQueue st) as [|e q] eqn:Hq; cbn.
    + destruct (flushTimeout st); cbn; rewrite ?Hq; intros H; now contradiction H.
    + destruct (flushTimeout st) eqn:Ht; cbn; rewrite ?Ht; eauto.
  - cbn [logQueue]. destruct (0 <? length (logQueue st))%nat eqn:E.
    + apply flushLogs_begin_pending.
    + intros H. cbn in H. destruct (logQueue st); [now contradiction H|discriminate].
  - intros H. now contradiction H.
Qed.

End LoggerInvariant.

(** X13: whatever the context does with the logger (logging, timers
    firing, flushes starting and finishing, reading, clearing), starting
    from the module's initial state, a non-empty queue always has a flush
    coming: a timer is armed or a flush is under way.  No entry waits in
    the queue without one. *)
Theorem queued_entries_have_a_flush_pending (evs : list LogApi.LoggerEvent) :
  let st := LogApi.logger_run evs Logger.initial_logger in
  Logger.logQueue st ≠ [] →
  is_Some (Logger.flushTimeout st) ∨ Logger.isFlushing st = true.
Proof.
  cbv zeta. change (LogApi.flush_pending (LogApi.logger_run evs Logger.initial_logger)).
  assert (H0 : LogApi.flush_pending Logger.initial_logger)
    by (intros H; now contradiction H).
  revert H0. generalize Logger.initial_logger.
  induction evs as [|ev evs IH]; intros st Hp; [exact Hp|].
  cbn [LogApi.logger_run fold_left]. apply IH.
  now apply logger_step_pending.
Qed.

Lemma queued_entries_have_a_flush_pending_witness :
  let c := Logger.mkCall 5 "content" "log" [Logger.ArgOther "scan"] in
  let evs := [LogApi.EvLog c; LogApi.EvFlush; LogApi.EvLog c; LogApi.EvFlush;
              LogApi.EvGetLogs; LogApi.EvFinally 300] in
  let st := LogApi.logger_run evs Logger.initial_logger in
  Logger.logQueue st = [Logger.mkEntry 5 "content" "log" "scan"]
  ∧ (is_Some (Logger.flushTimeout st) ∨ Logger.isFlushing st = true).
Proof.
  cbv zeta. split; [reflexivity|].
  apply (queued_entries_have_a_flush_pending
           [LogApi.EvLog (Logger.mkCall 5 "content" "log" [Logger.ArgOther "scan"]);
            LogApi.EvFlush;
            LogApi.EvLog (Logger.mkCall 5 "content" "log" [Logger.ArgOther "scan"]);
            LogApi.EvFlush; LogApi.EvGetLogs; LogApi.EvFinally 300]).
  discriminate.
Defined.

(* ===================================================================== *)
(** * Further properties of the log bridge                                *)
(* ===================================================================== *)

(** X14: with the content script's listener registered, a request
    answered before the timeout returns the logs the listener read with
    [xpnGetLogs], provided [JSON.parse] reads back what [JSON.stringify]
    wrote; the request is pending until the answer comes.  An answer that
    comes after the timeout is ignored: the request has returned the empty
    list and keeps that result. *)
Theorem getExtensionLogs_takes_first_answer
    (JSON_parse : string → option (list Logger.LogEntry))
    (JSON_stringify : list Logger.LogEntry → string)
    (latency t0 : Z) (env : LogApi.GetEnv) (st : Logger.LoggerState)
    (stor : Logger.LogStorage)
    (Hround : JSON_parse (JSON_stringify (LogApi.xpnGetLogs env st stor).1.1)
              = Some (LogApi.xpnGetLogs env st stor).1.1)
    (Hempty : JSON_parse "[]" = Some [])
    (Hlatency : 0 ≤ latency) :
  let responder :=
    Some (BridgeResponder.logs_responder JSON_stringify latency env st stor) in
  let logs := (LogApi.xpnGetLogs env st stor).1.1 in
  (latency < Bridge.TIMEOUT_MS →
   (∀ time, t0 + latency ≤ time →
      Bridge.getExtensionLogs JSON_parse responder t0 time = Some logs)
   ∧ (∀ time, time < t0 + latency →
        Bridge.getExtensionLogs JSON_parse responder t0 time = None))
  ∧ (Bridge.TIMEOUT_MS < latency →
     ∀ time, t0 + Bridge.TIMEOUT_MS ≤ time →
       Bridge.getExtensionLogs JSON_parse responder t0 time = Some []).
Proof.
  cbv zeta. unfold BridgeResponder.logs_responder.
  set (logs := (LogApi.xpnGetLogs env st stor).1.1) in *. clearbody logs.
  unfold Bridge.getExtensionLogs, Bridge.agenda, Bridge.run_until.
  cbn [Bridge.latency Bridge.payload].
  split.
  - intros Hfast.
    assert ((latency <? Bridge.TIMEOUT_MS) = true) as -> by now apply Z.ltb_lt.
    cbn [fold_left]. split.
    + intros time Htime.
      assert ((t0 + latency <=? time) = true) as -> by now apply Z.leb_le.
      cbn. destruct (t0 + Bridge.TIMEOUT_MS <=? time); cbn; now rewrite Hround.
    + intros time Htime.
      assert ((t0 + latency <=? time) = false) as -> by (apply Z.leb_gt; lia).
      assert ((t0 + Bridge.TIMEOUT_MS <=? time) = false) as ->
        by (apply Z.leb_gt; lia).
      reflexivity.
  - intros Hslow time Htime.
    assert ((latency <? Bridge.TIMEOUT_MS) = false) as -> by (apply Z.ltb_ge; lia).
    cbn [fold_left].
    assert ((t0 + Bridge.TIMEOUT_MS <=? time) = true) as -> by now apply Z.leb_le.
    destruct (t0 + latency <=? time); cbn; now rewrite Hempty.
Qed.

Lemma getExtensionLogs_takes_first_answer_witness :
  let entry := Logger.mkEntry 5 "content" "log" "scan" in
  let stringify := fun logs : list Logger.LogEntry =>
    match logs with [] => "[]" | _ => "[{...}]" end in
  let parse := fun text : string =>
    if String.eqb text "[]" then Some []
    else if String.eqb text "[{...}]" then Some [entry] else None in
  let env := LogApi.mkGetEnv (Logger.mkFlushEnv true true [] 9) true in
  Bridge.getExtensionLogs parse
    (Some (BridgeResponder.logs_responder stringify 30 env
             (Logger.mkLogger [] None false) (Some [entry]))) 1000 1030
  = Some [entry].
Proof.
  cbv zeta.
  destruct (getExtensionLogs_takes_first_answer
              (fun text : string =>
                 if String.eqb text "[]" then Some []
                 else if String.eqb text "[{...}]"
                      then Some [Logger.mkEntry 5 "content" "log" "scan"]
                      else None)
              (fun logs : list Logger.LogEntry =>
                 match logs with [] => "[]" | _ => "[{...}]" end)
              30 1000
              (LogApi.mkGetEnv (Logger.mkFlushEnv true true [] 9) true)
              (Logger.mkLogger [] None false)
              (Some [Logger.mkEntry 5 "content" "log" "scan"])
              eq_refl eq_refl ltac:(lia)) as [Hfast _].
  destruct (Hfast ltac:(reflexivity)) as [Hanswer _].
  exact (Hanswer 1030 ltac:(lia)).
Defined.

(* ===================================================================== *)
(** * Properties of discovery and decoration                              *)
(* ===================================================================== *)

Section DiscoveryFacts.
Import JsString Discovery.

Lemma word_char_not_at c : is_word_char c = true → Ascii.eqb c "@" = false.
Proof.
  destruct c as [[] [] [] [] [] [] [] []]; vm_compute; congruence.
Qed.

Lemma word_chars_no_at s : all_chars is_word_char s = true → count "@" s = O.
Proof.
  induction s as [|c r IH]; [reflexivity|].
  cbn [all_chars count]. intros H. apply andb_true_iff in H as [Hc Hr].
  now rewrite (word_char_not_at c Hc), IH.
Qed.

Lemma is_profile_href_inv h :
  is_profile_href h = true →
  ∃ rest, h = String "/" rest
          ∧ (1 ≤ String.length rest ≤ 15)%nat
          ∧ all_chars is_word_char rest = true.
Proof.
  destruct h as [|c rest]; [discriminate|]. cbn [is_profile_href].
  rewrite !andb_true_iff. intros [[[Hc H1] H15] Hall].
  apply Ascii.eqb_eq in Hc as ->. exists rest.
  apply Nat.leb_le in H1, H15. auto.
Qed.

Lemma candidate_inv link u :
  candidate link = Some u →
  processed link = false ∧ in_modal link = false ∧ in_wrapper link = false
  ∧ in_tweet_text link = false
  ∧ href link = Some (String "/" u)
  ∧ (1 ≤ String.length u ≤ 15)%nat
  ∧ all_chars is_word_char u = true.
Proof.
  unfold candidate. destruct (href link) as [h|]; [|discriminate].
  destruct (negb (startsWith "/" h)); [discriminate|].
  destruct (processed link); [discriminate|].
  destruct (in_modal link); [discriminate|].
  destruct (in_wrapper link); [discriminate|].
  destruct (is_profile_href h) eqn:Hh; [|discriminate].
  destruct (is_profile_href_inv h Hh) as (rest & -> & Hlen & Hall).
  destruct (_ || _); [|discriminate].
  destruct (in_tweet_text link); [discriminate|].
  cbn [drop]. intros [= <-]. auto 10.
Qed.

Lemma decorate_injected link u :
  candidate link = Some u → is_skipped u = false →
  decorate link = injectButton link.
Proof. unfold decorate. now intros -> ->. Qed.

Lemma candidate_injectButton link : candidate (injectButton link) = None.
Proof.
  unfold candidate, injectButton. cbn [href processed].
  destruct (href link) as [h|]; [|reflexivity].
  now destruct (negb (startsWith "/" h)).
Qed.

Lemma decorate_idempotent link : decorate (decorate link) = decorate link.
Proof.
  assert (Hcases : decorate link = link ∨ decorate link = injectButton link).
  { unfold decorate. destruct (candidate link) as [u|]; [|now left].
    destruct (is_skipped u); auto. }
  destruct Hcases as [H|H]; rewrite H; [exact H|].
  unfold decorate. now rewrite candidate_injectButton.
Qed.

(** Whether a pass gives the element a button. *)
Lemma decorate_buttons link :
  buttons (decorate link) = buttons link
  ∨ (processed link = false ∧ buttons (decorate link) = S (buttons link)
     ∧ processed (decorate link) = true).
Proof.
  unfold decorate. destruct (candidate link) as [u|] eqn:Hc; [|now left].
  destruct (is_skipped u); [now left|]. right.
  destruct (candidate_inv link u Hc) as (Hp & _). auto.
Qed.

End DiscoveryFacts.

(** X15: every username that [findUsernameElements] reports is the path
    of a not yet processed link outside the modal, the wrappers and tweet
    text: one to fifteen characters among letters, digits and the
    underscore.  It has no '@', so [normalizeUsername] only lowercases it,
    and normalizing twice gives the same key. *)
Theorem discovered_usernames_are_handles
    (doc : list Discovery.Anchor) (i : nat) (username : string)
    (Hfound : (i, username) ∈ Discovery.findUsernameElements doc) :
  (∃ link, doc !! i = Some link
           ∧ Discovery.href link = Some (String "/" username)
           ∧ Discovery.processed link = false
           ∧ Discovery.in_modal link = false
           ∧ Discovery.in_wrapper link = false
           ∧ Discovery.in_tweet_text link = false)
  ∧ (1 ≤ String.length username ≤ 15)%nat
  ∧ Discovery.all_chars Discovery.is_word_char username = true
  ∧ normalizeUsername username = JsString.toLowerCase username
  ∧ normalizeUsername (normalizeUsername username) = normalizeUsername username.
Proof.
  unfold Discovery.findUsernameElements in Hfound.
  apply list_elem_of_omap in Hfound as ([j link] & Hin & Hc).
  apply elem_of_lookup_imap in Hin as (k & link' & [= -> ->] & Hk).
  destruct (Discovery.candidate link') as [u|] eqn:Hcand; [|discriminate].
  cbn in Hc. injection Hc as -> ->.
  destruct (candidate_inv link' username Hcand)
    as (Hp & Hm & Hw & Ht & Hh & Hlen & Hall).
  pose proof (word_chars_no_at username Hall) as Hat.
  split; [exists link'; auto 10|].
  split; [exact Hlen|]. split; [exact Hall|].
  split.
  - unfold normalizeUsername. apply replace_at_absent.
    now rewrite count_toLowerCase.
  - assert (Hlow : normalizeUsername username = JsString.toLowerCase username).
    { unfold normalizeUsername. apply replace_at_absent.
      now rewrite count_toLowerCase. }
    rewrite Hlow. unfold normalizeUsername. rewrite toLowerCase_idem.
    apply replace_at_absent. now rewrite count_toLowerCase.
Qed.

Lemma discovered_usernames_are_handles_witness :
  let doc := [Discovery.mkAnchor (Some "/settings") "Settings" false false false false 0;
              Discovery.mkAnchor (Some "/Alice_01") " @Alice_01 " false false false false 0] in
  (1%nat, "Alice_01") ∈ Discovery.findUsernameElements doc
  ∧ normalizeUsername "Alice_01" = "alice_01".
Proof.
  cbv zeta.
  assert (Hfound : (1%nat, "Alice_01") ∈ Discovery.findUsernameElements
            [Discovery.mkAnchor (Some "/settings") "Settings" false false false false 0;
             Discovery.mkAnchor (Some "/Alice_01") " @Alice_01 " false false false false 0]).
  { replace (Discovery.findUsernameElements _)
      with [(0%nat, "settings"); (1%nat, "Alice_01")] by reflexivity.
    apply list_elem_of_further, list_elem_of_here. }
  split; [exact Hfound|].
  destruct (discovered_usernames_are_handles _ _ _ Hfound)
    as (_ & _ & _ & Hlow & _).
  rewrite Hlow. reflexivity.
Defined.

Section ProcessPageFacts.
Import Discovery.

Lemma injectButton_changes link : injectButton link ≠ link.
Proof.
  intros H. apply (f_equal buttons) in H. cbn in H. lia.
Qed.

Lemma processPage_from (pre l : list Anchor) (n : nat) :
  fold_left
    (fun '(d, injectedCount) '(i, username) =>
       match d !! i with
       | Some element =>
           if processed element then (d, injectedCount)
           else if is_skipped username then (d, injectedCount)
           else (<[i := injectButton element]> d, S injectedCount)
       | None => (d, injectedCount)
       end)
    (omap (fun '(i, link) => (fun u => (i, u)) <$> candidate link)
          (imap (fun i link => (length pre + i, link)%nat) l))
    (pre ++ l, n)
  = (pre ++ map decorate l, (n + injected_count l)%nat).
Proof.
  revert pre n. induction l as [|link l IH]; intros pre n.
  - cbn. now rewrite Nat.add_0_r.
  - rewrite imap_cons.
    change (omap ?f (?x :: ?r))
      with (match f x with Some y => y :: omap f r | None => omap f r end).
    cbn beta iota. rewrite Nat.add_0_r.
    assert (Hext : imap ((fun i link0 => (length pre + i, link0)%nat) ∘ S) l
                   = imap (fun i link0 => (length (pre ++ [link]) + i, link0)%nat) l).
    { apply imap_ext. intros i x _. cbn. rewrite length_app. cbn.
      f_equal. lia. }
    unfold injected_count. rewrite filter_cons.
    destruct (candidate link) as [u|] eqn:Hc; cbn [fmap option_fmap option_map].
    + cbn [fold_left].
      rewrite (list_lookup_middle pre l link (length pre) eq_refl).
      destruct (candidate_inv link u Hc) as (Hp & _). rewrite Hp.
      destruct (is_skipped u) eqn:Hs.
      * assert (Hd : decorate link = link) by (unfold decorate; now rewrite Hc, Hs).
        rewrite decide_False by (unfold gets_button; now rewrite Hc, Hs).
        rewrite Hext.
        replace (pre ++ link :: l) with ((pre ++ [link]) ++ l)
          by now rewrite <- app_assoc.
        rewrite IH. cbn [map]. rewrite Hd, <- app_assoc. reflexivity.
      * assert (Hd : decorate link = injectButton link)
          by (unfold decorate; now rewrite Hc, Hs).
        rewrite decide_True by (unfold gets_button; now rewrite Hc, Hs).
        replace (length pre) with (length pre + 0)%nat at 1 by lia.
        rewrite insert_app_r. cbn [insert list_insert].
        rewrite Hext.
        replace (pre ++ injectButton link :: l)
          with ((pre ++ [injectButton link]) ++ l) by now rewrite <- app_assoc.
        assert (Hlen : length (pre ++ [injectButton link]) = length (pre ++ [link]))
          by (rewrite !length_app; reflexivity).
        rewrite <- Hlen, IH. cbn [map length]. rewrite Hd, <- app_assoc.
        f_equal. unfold injected_count. lia.
    + assert (Hd : decorate link = link) by (unfold decorate; now rewrite Hc).
      rewrite decide_False by (unfold gets_button; now rewrite Hc).
      rewrite Hext.
      replace (pre ++ link :: l) with ((pre ++ [link]) ++ l)
        by now rewrite <- app_assoc.
      rewrite IH. cbn [map]. rewrite Hd, <- app_assoc. reflexivity.
Qed.

Lemma processPage_decorates doc :
  processPage doc = (map decorate doc, injected_count doc).
Proof.
  unfold processPage, findUsernameElements.
  pose proof (processPage_from [] doc 0) as H. cbn in H. exact H.
Qed.

Lemma injected_count_decorated doc : injected_count (map decorate doc) = O.
Proof.
  unfold injected_count. induction doc as [|link doc IH]; [reflexivity|].
  cbn [map]. rewrite filter_cons, decide_False; [exact IH|].
  assert (Hcases : decorate link = link ∨ decorate link = injectButton link).
  { unfold decorate. destruct (candidate link) as [u|]; [|now left].
    destruct (is_skipped u); auto. }
  unfold gets_button.
  destruct Hcases as [H|H]; rewrite H.
  - unfold decorate in H. destruct (candidate link) as [u|]; [|discriminate].
    destruct (is_skipped u); [discriminate|].
    now apply injectButton_changes in H.
  - rewrite candidate_injectButton. discriminate.
Qed.

End ProcessPageFacts.

(** X16: [processPage] gives a note button to exactly the elements that
    [findUsernameElements] reports and whose lower-cased username is not
    reserved, one button each, and marks them processed; every other
    element is left as it was, and [injectedCount] counts the buttons
    given.  Running it again, any number of times, on the document it
    produced injects nothing and changes nothing: no element is ever
    decorated twice. *)
Theorem processPage_decorates_once (doc : list Discovery.Anchor) :
  let scan := fun d => (Discovery.processPage d).1 in
  Discovery.processPage (scan doc) = (scan doc, O)
  ∧ (∀ n, Nat.iter (S n) scan doc = scan doc)
  ∧ length (scan doc) = length doc
  ∧ (Discovery.processPage doc).2
    = length (filter (fun link => Discovery.gets_button link = true) doc)
  ∧ (∀ i link, doc !! i = Some link →
       scan doc !! i
       = Some (if Discovery.gets_button link
               then Discovery.injectButton link else link))
  ∧ (∀ link, Discovery.gets_button link = true ↔
       ∃ username, (Discovery.candidate link = Some username
                    ∧ Discovery.is_skipped username = false)).
Proof.
  cbv zeta.
  assert (Hscan : ∀ d, (Discovery.processPage d).1 = map Discovery.decorate d)
    by (intros d; now rewrite processPage_decorates).
  assert (Hagain : Discovery.processPage (map Discovery.decorate doc)
                   = (map Discovery.decorate doc, O)).
  { rewrite processPage_decorates, injected_count_decorated. f_equal.
    rewrite <- list_fmap_compose. apply list_fmap_ext.
    intros i x _. apply decorate_idempotent. }
  split; [now rewrite Hscan|].
  split.
  { induction n as [|n IH]; [reflexivity|].
    change (Nat.iter (S (S n)) ?f ?x) with (f (Nat.iter (S n) f x)).
    rewrite IH. cbn beta. rewrite (Hscan doc), Hagain. reflexivity. }
  split; [rewrite Hscan; apply length_map|].
  split; [now rewrite processPage_decorates|].
  split.
  - intros i link Hi. rewrite Hscan, list_lookup_fmap, Hi. cbn. f_equal.
    unfold Discovery.decorate, Discovery.gets_button.
    destruct (Discovery.candidate link) as [u|]; [|reflexivity].
    now destruct (Discovery.is_skipped u).
  - intros link. unfold Discovery.gets_button.
    destruct (Discovery.candidate link) as [u|].
    + rewrite negb_true_iff. split; [eauto|]. now intros (u' & [= <-] & H).
    + split; [discriminate|]. now intros (u' & H & _).
Qed.

Lemma processPage_decorates_once_witness :
  let alice := Discovery.mkAnchor (Some "/Alice_01") "@Alice_01" false false false false 0 in
  let home := Discovery.mkAnchor (Some "/Home") "Home" false false false false 0 in
  let status := Discovery.mkAnchor (Some "/Alice_01/status/1") "@Alice_01" false false false false 0 in
  Discovery.processPage [alice; home; status]
  = ([Discovery.injectButton alice; home; status], 1%nat)
  ∧ Discovery.processPage [Discovery.injectButton alice; home; status]
    = ([Discovery.injectButton alice; home; status], O).
Proof.
  cbv zeta.
  assert (H1 : Discovery.processPage
                 [Discovery.mkAnchor (Some "/Alice_01") "@Alice_01" false false false false 0;
                  Discovery.mkAnchor (Some "/Home") "Home" false false false false 0;
                  Discovery.mkAnchor (Some "/Alice_01/status/1") "@Alice_01" false false false false 0]
               = ([Discovery.injectButton
                     (Discovery.mkAnchor (Some "/Alice_01") "@Alice_01" false false false false 0);
                   Discovery.mkAnchor (Some "/Home") "Home" false false false false 0;
                   Discovery.mkAnchor (Some "/Alice_01/status/1") "@Alice_01" false false false false 0],
                  1%nat)) by reflexivity.
  split; [exact H1|].
  destruct (processPage_decorates_once
              [Discovery.mkAnchor (Some "/Alice_01") "@Alice_01" false false false false 0;
               Discovery.mkAnchor (Some "/Home") "Home" false false false false 0;
               Discovery.mkAnchor (Some "/Alice_01/status/1") "@Alice_01" false false false false 0])
    as (Hagain & _).
  rewrite H1 in Hagain. exact Hagain.
Defined.

(* ===================================================================== *)
(** * Properties of the debounced re-scan                                 *)
(* ===================================================================== *)

Section ScanFacts.
Import Discovery Scan.

Lemma clearTimeout_own handle due :
  clearTimeout handle [(handle, due)] = [].
Proof.
  unfold clearTimeout. rewrite filter_cons. cbn [fst].
  rewrite Pos.eqb_refl. cbn. rewrite decide_False by (intros []).
  reflexivity.
Qed.

Lemma debouncedProcess_one_timer now s :
  one_timer s →
  armed (debouncedProcess now s) = [(next_handle s, now + debounceMs)]
  ∧ processTimeout (debouncedProcess now s) = Some (next_handle s)
  ∧ scans (debouncedProcess now s) = scans s
  ∧ document (debouncedProcess now s) = document s.
Proof.
  intros [Hnil|(h & d & Harmed & Hpt)]; unfold debouncedProcess;
    cbn [armed processTimeout scans document].
  - rewrite Hnil. destruct (processTimeout s); repeat split.
  - rewrite Hpt, Harmed, clearTimeout_own. repeat split.
Qed.

Lemma injection_records_added n :
  existsb (fun added => (0 <? added)%nat) (injection_records n) = (0 <? n)%nat.
Proof. destruct n; reflexivity. Qed.

Lemma scanned_twice doc : map decorate (map decorate doc) = map decorate doc.
Proof.
  rewrite map_map. apply map_ext. intros link. apply decorate_idempotent.
Qed.

(** The callback of a timer that was the only one armed. *)
Lemma timer_callback_alone now s :
  armed s = [] →
  document (timer_callback now s) = map decorate (document s)
  ∧ scans (timer_callback now s) = S (scans s)
  ∧ (injected_count (document s) = O → armed (timer_callback now s) = [])
  ∧ (injected_count (document s) ≠ O →
     armed (timer_callback now s) = [(next_handle s, now + debounceMs)]
     ∧ processTimeout (timer_callback now s) = Some (next_handle s)).
Proof.
  intros Hnil. unfold timer_callback, onMutations.
  rewrite processPage_decorates, injection_records_added.
  destruct (injected_count (document s)) as [|n] eqn:Hn;
    cbn [Nat.ltb Nat.leb].
  - cbn [document scans armed]. split; [reflexivity|]. split; [reflexivity|].
    split; [intros _; exact Hnil|intros H; now destruct H].
  - destruct (debouncedProcess_one_timer now
                (mkScan (map decorate (document s)) (processTimeout s)
                        (next_handle s) (armed s) (S (scans s)))
                (or_introl Hnil)) as (Ha & Hp & Hs & Hd).
    cbn [document scans next_handle] in *.
    split; [exact Hd|]. split; [exact Hs|].
    split; [discriminate|intros _; now split].
Qed.

Lemma fire_next_none time s : armed s = [] → fire_next time s = None.
Proof. intros H. unfold fire_next. now rewrite H. Qed.

Lemma fire_next_pending time handle due s :
  armed s = [(handle, due)] → time < due → fire_next time s = None.
Proof.
  intros Ha Ht. unfold fire_next. rewrite Ha, filter_cons, filter_nil.
  cbn [snd]. assert ((due <=? time) = false) as -> by (apply Z.leb_gt; lia).
  rewrite decide_False by (intros []). reflexivity.
Qed.

Lemma fire_next_due time handle due s :
  armed s = [(handle, due)] → due ≤ time →
  fire_next time s
  = Some (timer_callback due
            (mkScan (document s) (processTimeout s) (next_handle s) []
                    (scans s))).
Proof.
  intros Ha Ht. unfold fire_next. rewrite Ha, filter_cons, filter_nil.
  cbn [snd]. assert ((due <=? time) = true) as -> by now apply Z.leb_le.
  rewrite decide_True by exact I. now rewrite clearTimeout_own.
Qed.

Lemma run_timers_none time s : armed s = [] → run_timers time s = s.
Proof.
  intros H. unfold run_timers. rewrite H. cbn [length run_due].
  now rewrite fire_next_none.
Qed.

Lemma run_timers_pending time handle due s :
  armed s = [(handle, due)] → time < due → run_timers time s = s.
Proof.
  intros Ha Ht. unfold run_timers. rewrite Ha. cbn [length run_due].
  now rewrite (fire_next_pending time handle due).
Qed.

(** What the timers do from the time the only armed timer is due. *)
Lemma run_timers_due time handle due s :
  armed s = [(handle, due)] → due ≤ time →
  let s' := run_timers time s in
  document s' = map decorate (document s)
  ∧ fire_next time s' = None
  ∧ (injected_count (document s) = O →
     scans s' = S (scans s) ∧ armed s' = [])
  ∧ (injected_count (document s) ≠ O → time < due + debounceMs →
     scans s' = S (scans s)
     ∧ armed s' = [(next_handle s, due + debounceMs)]
     ∧ processTimeout s' = Some (next_handle s))
  ∧ (injected_count (document s) ≠ O → due + debounceMs ≤ time →
     scans s' = S (S (scans s)) ∧ armed s' = []).
Proof.
  intros Ha Ht. cbv zeta. unfold run_timers. rewrite Ha.
  cbn [length run_due]. rewrite (fire_next_due time handle due s Ha Ht).
  set (s0 := mkScan (document s) (processTimeout s) (next_handle s) [] (scans s)).
  destruct (timer_callback_alone due s0 eq_refl) as (Hd & Hs & Hzero & Hpos).
  change (document s0) with (document s) in Hd, Hzero, Hpos.
  change (scans s0) with (scans s) in Hs.
  change (next_handle s0) with (next_handle s) in Hpos.
  set (c1 := timer_callback due s0) in *.
  destruct (Nat.eq_dec (injected_count (document s)) O) as [Hn|Hn].
  - pose proof (Hzero Hn) as Hnil.
    rewrite (fire_next_none time c1 Hnil).
    split; [exact Hd|]. split; [now apply fire_next_none|].
    split; [auto|]. split; intros; contradiction.
  - destruct (Hpos Hn) as [Harmed Hpt].
    destruct (Z.lt_ge_cases time (due + debounceMs)) as [Hlt|Hge].
    + rewrite (fire_next_pending time _ _ c1 Harmed Hlt).
      split; [exact Hd|].
      split; [now apply (fire_next_pending time _ _ c1 Harmed)|].
      split; [intros; contradiction|]. split; [auto|intros; lia].
    + rewrite (fire_next_due time _ _ c1 Harmed Hge).
      set (s1 := mkScan (document c1) (processTimeout c1) (next_handle c1) []
                        (scans c1)).
      destruct (timer_callback_alone (due + debounceMs) s1 eq_refl)
        as (Hd2 & Hs2 & Hzero2 & _).
      change (document s1) with (document c1) in Hd2, Hzero2.
      change (scans s1) with (scans c1) in Hs2.
      rewrite Hd in Hd2, Hzero2. rewrite scanned_twice in Hd2.
      pose proof (Hzero2 (injected_count_decorated (document s))) as Hnil2.
      split; [exact Hd2|]. split; [now apply fire_next_none|].
      split; [intros; contradiction|]. split; [intros; lia|].
      intros _ _. split; [now rewrite Hs2, Hs|exact Hnil2].
Qed.

Lemma run_timers_one_timer time s :
  one_timer s →
  one_timer (run_timers time s) ∧ fire_next time (run_timers time s) = None.
Proof.
  intros [Hnil|(h & d & Harmed & Hpt)].
  - rewrite (run_timers_none time s Hnil).
    split; [now left|now apply fire_next_none].
  - destruct (Z.lt_ge_cases time d) as [Hlt|Hge].
    + rewrite (run_timers_pending time h d s Harmed Hlt).
      split; [right; eauto|now apply (fire_next_pending time h d)].
    + destruct (run_timers_due time h d s Harmed Hge)
        as (_ & Hquiet & Hzero & Hpend & Hdone).
      split; [|exact Hquiet].
      destruct (Nat.eq_dec (injected_count (document s)) O) as [Hn|Hn].
      * left. now apply Hzero.
      * destruct (Z.lt_ge_cases time (d + debounceMs)) as [Hlt|Hge'].
        -- destruct (Hpend Hn Hlt) as (_ & Ha & Hp). right. eauto.
        -- left. now apply Hdone.
Qed.

Lemma scan_step_one_timer ev s : one_timer s → one_timer (scan_step ev s).
Proof.
  intros H. destruct ev as [now doc added|now|time]; cbn [scan_step].
  - assert (H' : one_timer (mkScan doc (processTimeout s) (next_handle s)
                              (armed s) (scans s))) by exact H.
    unfold onMutations. destruct (existsb _ added); [|exact H'].
    destruct (debouncedProcess_one_timer now _ H') as (Ha & Hp & _).
    right. eauto.
  - destruct (debouncedProcess_one_timer now s H) as (Ha & Hp & _).
    right. eauto.
  - now apply run_timers_one_timer.
Qed.

Lemma scan_steps_one_timer evs s :
  one_timer s → one_timer (fold_left (fun s ev => scan_step ev s) evs s).
Proof.
  revert s. induction evs as [|ev evs IH]; intros s Hs; [exact Hs|].
  cbn [fold_left]. apply IH. now apply scan_step_one_timer.
Qed.

(** A burst that continues from an armed timer. *)
Lemma burst_continues rest : ∀ t s handle,
  armed s = [(handle, t + debounceMs)] → processTimeout s = Some handle →
  within_window t rest →
  ∃ handle',
    armed (burst rest s) = [(handle', last_time t rest + debounceMs)]
    ∧ processTimeout (burst rest s) = Some handle'
    ∧ scans (burst rest s) = scans s
    ∧ document (burst rest s) = document s.
Proof.
  induction rest as [|t' rest IH]; intros t s handle Ha Hp Hw.
  - exists handle. cbn. auto.
  - destruct Hw as [Ht' Hw]. cbn [burst fold_left last_time].
    rewrite (run_timers_pending t' handle (t + debounceMs) s Ha ltac:(lia)).
    assert (H1 : one_timer s) by (right; eauto).
    destruct (debouncedProcess_one_timer t' _ H1) as (Ha2 & Hp2 & Hs2 & Hd2).
    destruct (IH t' _ _ Ha2 Hp2 Hw) as (h' & Ha3 & Hp3 & Hs3 & Hd3).
    exists h'. unfold burst in *. rewrite Ha3, Hp3, Hs3, Hd3, Hs2, Hd2. auto.
Qed.

End ScanFacts.

(** X17: [debouncedProcess] cancels the pending timer before it arms a new
    one, so at most one scan timer is ever armed, whatever the page does
    (rebuilding its document, navigating, letting time pass), and once
    the timers due have fired none that is due is left.  A burst of
    calls, each less than 100 ms after the one before, started with no
    timer armed, runs [processPage] not at all until 100 ms after its
    last call, and once then.  If that scan injects no button, nothing
    more is scheduled.  If it injects one, the observer sees the inserted
    nodes and schedules a second scan 100 ms later, which finds nothing
    to inject and is the last.  A batch of mutation records without added
    nodes schedules nothing. *)
Theorem debouncedProcess_burst_scans_once :
  (∀ (doc : list Discovery.Anchor) (evs : list Scan.ScanEvent),
     (length (Scan.armed (fold_left (fun s ev => Scan.scan_step ev s) evs
                            (Scan.initial_scan doc))) ≤ 1)%nat)
  ∧ (∀ (doc : list Discovery.Anchor) (evs : list Scan.ScanEvent) (time : Z),
       Scan.fire_next time
         (Scan.run_timers time
            (fold_left (fun s ev => Scan.scan_step ev s) evs
               (Scan.initial_scan doc))) = None)
  ∧ (∀ (s : Scan.ScanState) (t : Z) (rest : list Z),
       Scan.armed s = [] → Scan.within_window t rest →
       let after := Scan.burst (t :: rest) s in
       let due := Scan.last_time t rest + Scan.debounceMs in
       let injectedCount := (Discovery.processPage (Scan.document s)).2 in
       Scan.scans after = Scan.scans s
       ∧ Scan.document after = Scan.document s
       ∧ (∀ time, time < due → Scan.run_timers time after = after)
       ∧ (∀ time, due ≤ time →
            Scan.document (Scan.run_timers time after)
            = (Discovery.processPage (Scan.document s)).1)
       ∧ (injectedCount = O →
          ∀ time, due ≤ time →
            Scan.scans (Scan.run_timers time after) = S (Scan.scans s)
            ∧ Scan.armed (Scan.run_timers time after) = [])
       ∧ (injectedCount ≠ O →
          (∀ time, due ≤ time < due + Scan.debounceMs →
             Scan.scans (Scan.run_timers time after) = S (Scan.scans s)
             ∧ ∃ handle, Scan.armed (Scan.run_timers time after)
                         = [(handle, due + Scan.debounceMs)])
          ∧ (∀ time, due + Scan.debounceMs ≤ time →
               Scan.scans (Scan.run_timers time after) = S (S (Scan.scans s))
               ∧ Scan.armed (Scan.run_timers time after) = [])))
  ∧ (∀ now added s,
       Forall (fun n => n = O) added → Scan.onMutations now added s = s).
Proof.
  split; [|split; [|split]].
  - intros doc evs.
    destruct (scan_steps_one_timer evs (Scan.initial_scan doc) (or_introl eq_refl))
      as [->|(h & d & -> & _)]; simpl; lia.
  - intros doc evs time.
    apply run_timers_one_timer, scan_steps_one_timer. now left.
  - intros s t rest Hnil Hw. cbv zeta.
    rewrite processPage_decorates. cbn [fst snd].
    cbn [Scan.burst fold_left]. rewrite (run_timers_none t s Hnil).
    destruct (debouncedProcess_one_timer t s (or_introl Hnil))
      as (Ha & Hp & Hs & Hd).
    destruct (burst_continues rest t _ _ Ha Hp Hw)
      as (h' & Ha' & Hp' & Hs' & Hd').
    unfold Scan.burst in *.
    set (after := fold_left _ rest _) in *.
    assert (Hscans : Scan.scans after = Scan.scans s) by congruence.
    assert (Hdoc : Scan.document after = Scan.document s) by congruence.
    split; [exact Hscans|]. split; [exact Hdoc|]. split; [|split; [|split]].
    + intros time Htime. now apply (run_timers_pending time h' _ after Ha').
    + intros time Htime.
      destruct (run_timers_due time h' _ after Ha' Htime) as (-> & _).
      now rewrite Hdoc.
    + intros Hzero time Htime.
      destruct (run_timers_due time h' _ after Ha' Htime) as (_ & _ & Hz & _).
      rewrite <- Hscans. apply Hz. now rewrite Hdoc.
    + intros Hpos. split.
      * intros time [Hlo Hhi].
        destruct (run_timers_due time h' _ after Ha' Hlo)
          as (_ & _ & _ & Hpend & _).
        destruct (Hpend ltac:(now rewrite Hdoc) Hhi) as (-> & -> & _).
        rewrite Hscans. eauto.
      * intros time Htime.
        destruct (run_timers_due time h' _ after Ha'
                    ltac:(unfold Scan.debounceMs in *; lia))
          as (_ & _ & _ & _ & Hdone).
        destruct (Hdone ltac:(now rewrite Hdoc) Htime) as (-> & ->).
        now rewrite Hscans.
  - intros now added s Hall. unfold Scan.onMutations.
    assert (existsb (fun n => (0 <? n)%nat) added = false) as ->; [|reflexivity].
    induction Hall as [|n l -> _ IH]; [reflexivity|]. cbn. exact IH.
Qed.

Lemma debouncedProcess_burst_scans_once_witness :
  let link := Discovery.mkAnchor (Some "/alice") "@alice" false false false
                false 0 in
  let after := Scan.burst [0; 60; 120; 180] (Scan.initial_scan [link]) in
  Scan.within_window 0 [60; 120; 180]
  ∧ Scan.scans (Scan.run_timers 279 after) = O
  ∧ Scan.scans (Scan.run_timers 280 after) = 1%nat
  ∧ Scan.scans (Scan.run_timers 380 after) = 2%nat
  ∧ Scan.armed (Scan.run_timers 380 after) = [].
Proof.
  cbv zeta.
  set (link := Discovery.mkAnchor (Some "/alice") "@alice" false false false
                 false 0).
  assert (Hw : Scan.within_window 0 [60; 120; 180])
    by (cbn; unfold Scan.debounceMs; lia).
  split; [exact Hw|].
  destruct debouncedProcess_burst_scans_once as (_ & _ & Hburst & _).
  destruct (Hburst (Scan.initial_scan [link]) 0 [60; 120; 180] eq_refl Hw)
    as (Hscans & _ & Hbefore & _ & _ & Hinjects).
  destruct (Hinjects ltac:(vm_compute; discriminate)) as [Hfirst Hsecond].
  split.
  - rewrite (Hbefore 279); [exact Hscans|cbn; unfold Scan.debounceMs; lia].
  - split.
    + apply (Hfirst 280). cbn. unfold Scan.debounceMs. lia.
    + apply (Hsecond 380). cbn. unfold Scan.debounceMs. lia.
Defined.

(* ===================================================================== *)
(** * Properties of the popup                                             *)
(* ===================================================================== *)

Section PopupFacts.

Lemma migrate_inline_legacy now d :
  is_legacy d = true → Popup.migrate_inline now d = migrateNoteFormat now d.
Proof.
  unfold is_legacy, Popup.migrate_inline, migrateNoteFormat.
  destruct d as [n [sc|] [l|] c u]; cbn; try discriminate.
  now destruct sc.
Qed.

Lemma migrate_inline_other now d :
  is_legacy d = false → Popup.migrate_inline now d = d.
Proof.
  unfold is_legacy, Popup.migrate_inline.
  now destruct d as [n [sc|] [l|] c u].
Qed.

Lemma popup_migration_is_migrate_all clock stored :
  map_imap (fun k d => Some (Popup.migrate_inline (clock k) d)) stored
  = migrate_all clock stored.
Proof.
  apply map_eq. intros k. rewrite migrate_all_lookup, map_lookup_imap.
  destruct (stored !! k) as [d|]; [|reflexivity]. cbn. f_equal.
  destruct (is_legacy d) eqn:E;
    [now apply migrate_inline_legacy|now apply migrate_inline_other].
Qed.

End PopupFacts.

(** X18: the popup's [loadNotes], which writes the migration out by hand,
    and the content script's, which calls [migrateNoteFormat], agree
    whenever the storage calls succeed: same collection in memory, same
    persisted value, same number of writes.  They differ when storage
    fails: the popup is left with an empty collection, while the content
    script keeps what it had (failed read) or the migrated collection
    (failed write). *)
Theorem popup_and_content_load_alike
    (env : LoadEnv) (cache notes : gmap string NoteData) (stor : ChromeStorage) :
  let content := (loadNotes env (mkContent cache stor)).2 in
  let popup := Popup.loadNotes env (Popup.mkPopup notes stor) in
  Popup.pstorage popup = storage content
  ∧ (load_get_ok env = true →
     load_set_ok env = true
     ∨ needs_save (default ∅ (notes_key stor)) = false →
     Popup.allNotes popup = notesCache content)
  ∧ (load_get_ok env = false →
     Popup.allNotes popup = ∅ ∧ notesCache content = cache)
  ∧ (load_get_ok env = true → load_set_ok env = false →
     needs_save (default ∅ (notes_key stor)) = true →
     Popup.allNotes popup = ∅
     ∧ notesCache content = migrate_all (load_clock env) (default ∅ (notes_key stor))).
Proof.
  cbv zeta. unfold Popup.loadNotes, loadNotes, storage_set.
  cbn [storage Popup.pstorage]. rewrite popup_migration_is_migrate_all.
  destruct (load_get_ok env), (needs_save _), (load_set_ok env); cbn;
    repeat split; try discriminate; try reflexivity;
    intros; try discriminate; try reflexivity;
    match goal with
    | H : _ ∨ _ |- _ => destruct H; discriminate
    | _ => idtac
    end.
Qed.

Lemma popup_and_content_load_alike_witness :
  let legacy := mkNote (Some "old") (Some (Some 3)) None (Some 5) (Some 7) in
  let stor := mkStorage (Some {[ "quinn" := legacy ]}) 0 in
  let env := mkLoadEnv true true (fun _ => 99) in
  Popup.allNotes (Popup.loadNotes env (Popup.mkPopup ∅ stor))
  = notesCache (loadNotes env (mkContent ∅ stor)).2.
Proof.
  cbv zeta.
  destruct (popup_and_content_load_alike (mkLoadEnv true true (fun _ => 99)) ∅ ∅
              (mkStorage
                 (Some {[ "quinn" :=
                            mkNote (Some "old") (Some (Some 3)) None (Some 5) (Some 7) ]})
                 0)) as (_ & Hsame & _).
  exact (Hsame eq_refl (or_introl eq_refl)).
Defined.

(** X19: in the popup, [editNote] does nothing for a user without record
    or when the prompt is cancelled, and [deleteNote] does nothing unless
    confirmed; none of them then writes to storage.  An edit that leaves
    text or samples stores the trimmed text and the time and keeps the
    samples; an edit to blank text on a record without samples deletes the
    record if confirmed.  So both actions keep records well formed: a
    collection of well-formed records stays one. *)
Theorem popup_edits_keep_records_well_formed
    (ans : Popup.Answers) (username : string) (st : Popup.PopupState) :
  (Popup.allNotes st !! username = None → Popup.editNote ans username st = st)
  ∧ (Popup.prompt_text ans = None → Popup.editNote ans username st = st)
  ∧ (Popup.confirmed ans = false → Popup.deleteNote ans username st = st)
  ∧ (Popup.confirmed ans = true →
     Popup.allNotes (Popup.deleteNote ans username st) !! username = None)
  ∧ (∀ key, key ≠ username →
       Popup.allNotes (Popup.editNote ans username st) !! key
       = Popup.allNotes st !! key)
  ∧ (cache_wf (Popup.allNotes st) →
     cache_wf (Popup.allNotes (Popup.editNote ans username st))
     ∧ cache_wf (Popup.allNotes (Popup.deleteNote ans username st))).
Proof.
  assert (Hdel : ∀ key, key ≠ username →
            Popup.allNotes (Popup.deleteNote ans username st) !! key
            = Popup.allNotes st !! key).
  { intros key Hkey. unfold Popup.deleteNote.
    destruct (Popup.confirmed ans); [|reflexivity].
    cbn. now rewrite lookup_delete_ne. }
  assert (Hdelwf : cache_wf (Popup.allNotes st) →
            cache_wf (Popup.allNotes (Popup.deleteNote ans username st))).
  { intros Hwf. unfold Popup.deleteNote.
    destruct (Popup.confirmed ans); [|exact Hwf].
    cbn. now apply map_Forall_delete. }
  split; [intros H; unfold Popup.editNote; now rewrite H|].
  split; [intros H; unfold Popup.editNote; rewrite H;
          now destruct (Popup.allNotes st !! username)|].
  split; [intros H; unfold Popup.deleteNote; now rewrite H|].
  split; [intros H; unfold Popup.deleteNote; rewrite H; cbn;
          apply lookup_delete_eq|].
  split.
  - intros key Hkey. unfold Popup.editNote.
    destruct (Popup.allNotes st !! username) as [data|]; [|reflexivity].
    destruct (Popup.prompt_text ans) as [newNote|]; [|reflexivity].
    destruct (_ && _); [now apply Hdel|].
    cbn. now rewrite lookup_insert_ne.
  - intros Hwf. split; [|now apply Hdelwf].
    unfold Popup.editNote.
    destruct (Popup.allNotes st !! username) as [data|] eqn:Hd; [|exact Hwf].
    destruct (Popup.prompt_text ans) as [newNote|]; [|exact Hwf].
    destruct (Hwf _ _ Hd) as (s & l & Hs & Hl & Hsc & Hlen & Hval & _).
    rewrite Hl.
    destruct (bool_decide (JsString.trim newNote = "") && negb (0 <? length l)%nat)
      eqn:E; [now apply Hdelwf|].
    cbn. apply map_Forall_insert_2; [|exact Hwf].
    exists (JsString.trim newNote), l.
    repeat split; try assumption.
    apply andb_false_iff in E as [E|E].
    + left. now apply bool_decide_eq_false in E.
    + right. apply negb_false_iff in E. destruct l; [discriminate|discriminate].
Qed.

Lemma popup_edits_keep_records_well_formed_witness :
  let rec := mkNote (Some "met once") None (Some [mkSample 4 10]) (Some 10) (Some 10) in
  let st := Popup.mkPopup {[ "trent" := rec ]} (mkStorage None 0) in
  Popup.editNote (Popup.mkAnswers None true 20 true) "trent" st = st
  ∧ Popup.allNotes (Popup.editNote (Popup.mkAnswers (Some "  ") false 20 true) "trent" st)
      !! "trent"
    = Some (mkNote (Some "") None (Some [mkSample 4 10]) (Some 10) (Some 20)).
Proof.
  cbv zeta.
  destruct (popup_edits_keep_records_well_formed
              (Popup.mkAnswers None true 20 true) "trent"
              (Popup.mkPopup
                 {[ "trent" := mkNote (Some "met once") None (Some [mkSample 4 10])
                                 (Some 10) (Some 10) ]}
                 (mkStorage None 0))) as (_ & Hcancel & _).
  split; [exact (Hcancel eq_refl)|].
  vm_compute. reflexivity.
Defined.

Section ImportFacts.





End ImportFacts.



(** X21: [formatDate] never shows a zero or an overflowing count: an age
    below one minute, or in the future, reads "Just now"; "m ago" carries
    1 to 59, "h ago" 1 to 23, "d ago" 1 to 6; from seven days on the date
    itself is shown. *)
Theorem formatDate_counts_in_range (diff : Z) :
  match Popup.formatDate diff with
  | Popup.JustNow => diff < 60000
  | Popup.MinutesAgo mins =>
      1 ≤ mins ≤ 59 ∧ 60000 * mins ≤ diff < 60000 * (mins + 1)
  | Popup.HoursAgo hours =>
      1 ≤ hours ≤ 23 ∧ 3600000 * hours ≤ diff < 3600000 * (hours + 1)
  | Popup.DaysAgo days =>
      1 ≤ days ≤ 6 ∧ 86400000 * days ≤ diff < 86400000 * (days + 1)
  | Popup.FullDate => 604800000 ≤ diff
  end.
Proof.
  unfold Popup.formatDate.
  destruct (Z.ltb_spec diff 60000); [assumption|].
  destruct (Z.ltb_spec diff 3600000).
  { pose proof (Z.div_mod diff 60000 ltac:(lia)).
    pose proof (Z.mod_pos_bound diff 60000 ltac:(lia)). lia. }
  destruct (Z.ltb_spec diff 86400000).
  { pose proof (Z.div_mod diff 3600000 ltac:(lia)).
    pose proof (Z.mod_pos_bound diff 3600000 ltac:(lia)). lia. }
  destruct (Z.ltb_spec diff 604800000); [|assumption].
  pose proof (Z.div_mod diff 86400000 ltac:(lia)).
  pose proof (Z.mod_pos_bound diff 86400000 ltac:(lia)). lia.
Qed.

(** X22: [formatScoreDate] reads "Today" for an age below one day,
    "Yesterday" below two, "n days ago" with n from 2 to 6 below seven,
    and the date from seven days on.  For a timestamp in the future the
    day count is negative and is shown as such ("-1 days ago"). *)
Theorem formatScoreDate_buckets (diffMs : Z) :
  (0 ≤ diffMs →
   match formatScoreDate diffMs with
   | Today => diffMs < 86400000
   | Yesterday => 86400000 ≤ diffMs < 2 * 86400000
   | NDaysAgo days =>
       2 ≤ days ≤ 6 ∧ 86400000 * days ≤ diffMs < 86400000 * (days + 1)
   | OnDate => 7 * 86400000 ≤ diffMs
   end)
  ∧ (diffMs < 0 →
     ∃ days, formatScoreDate diffMs = NDaysAgo days ∧ days < 0).
Proof.
  unfold formatScoreDate. change (1000 * 60 * 60 * 24) with 86400000.
  pose proof (Z.div_mod diffMs 86400000 ltac:(lia)) as Hdm.
  pose proof (Z.mod_pos_bound diffMs 86400000 ltac:(lia)) as Hmod.
  set (q := diffMs / 86400000) in *. clearbody q.
  split.
  - intros Hpos.
    destruct (Z.eqb_spec q 0); [lia|].
    destruct (Z.eqb_spec q 1); [lia|].
    destruct (Z.ltb_spec q 7); lia.
  - intros Hneg. exists q.
    destruct (Z.eqb_spec q 0); [lia|].
    destruct (Z.eqb_spec q 1); [lia|].
    destruct (Z.ltb_spec q 7); [split; [reflexivity|lia]|lia].
Qed.

Lemma formatScoreDate_buckets_witness :
  formatScoreDate (3 * 86400000 + 5) = NDaysAgo 3
  ∧ formatScoreDate (-1) = NDaysAgo (-1).
Proof.
  split; [reflexivity|].
  destruct (formatScoreDate_buckets (-1)) as [_ Hfuture].
  destruct (Hfuture ltac:(lia)) as (days & Heq & _).
  reflexivity.
Defined.

(* ===================================================================== *)
(** * saveNote: appending a score, and failing writes                     *)
(* ===================================================================== *)



(** X25: a failed storage write does not undo the change in memory.
    [saveNote], [deleteScoreAtIndex] and [deleteNote] leave the same cache
    whether the write succeeds or fails; when it fails they return [false]
    and the persisted copy stays as it was, so cache and storage differ
    until a later write succeeds. *)
Theorem failed_write_keeps_cache_change
    (now now' : Z) (username : string) (st : ContentState) :
  let ok := mkEnv now now' true in
  let failing := mkEnv now now' false in
  (∀ noteText score,
     notesCache (saveNote failing username noteText score st).2
       = notesCache (saveNote ok username noteText score st).2
     ∧ (saveNote failing username noteText score st).1 = false
     ∧ notes_key (storage (saveNote failing username noteText score st).2)
       = notes_key (storage st))
  ∧ (∀ index,
       notesCache (deleteScoreAtIndex failing username index st).2
         = notesCache (deleteScoreAtIndex ok username index st).2
       ∧ (deleteScoreAtIndex failing username index st).1 = false
       ∧ notes_key (storage (deleteScoreAtIndex failing username index st).2)
         = notes_key (storage st))
  ∧ (notesCache (deleteNote failing username st).2
       = notesCache (deleteNote ok username st).2
     ∧ (deleteNote failing username st).1 = false
     ∧ notes_key (storage (deleteNote failing username st).2)
       = notes_key (storage st)).
Proof.
  cbv zeta. split; [|split].
  - intros noteText score. split; [now rewrite !saveNote_cache|].
    unfold saveNote, storage_set. cbn. split; reflexivity.
  - intros index. unfold deleteScoreAtIndex, storage_set.
    destruct (notesCache st !! normalizeUsername username) as [d|];
      [|repeat split].
    destruct (scores d) as [l|]; [|repeat split].
    destruct (js_nth l index); repeat split.
  - unfold deleteNote, storage_set. cbn. repeat split.
Qed.

(* ===================================================================== *)
(** * Flushing in two rounds                                              *)
(* ===================================================================== *)

Section FlushCompose.
Import Logger.

Lemma trim_logs_append a b :
  trim_logs (trim_logs a ++ b) = trim_logs (a ++ b).
Proof.
  rewrite !trim_logs_is_suffix. unfold XPN_MAX_LOGS.
  destruct (Nat.le_gt_cases (length a) 1000) as [Hle|Hgt].
  - replace (length a - 1000)%nat with 0%nat by lia. reflexivity.
  - rewrite <- (drop_app_le a b (length a - 1000)) by lia.
    rewrite drop_drop. f_equal.
    rewrite length_drop, !length_app. lia.
Qed.

End FlushCompose.

(** X26: entries logged while a flush is under way are not lost and not
    reordered: when both flushes succeed, the follow-up flush leaves the
    same persisted list as one flush of the first batch followed by those
    entries would have, the last 1000 of the persisted list, the batch and
    the later entries in that order. *)
Theorem follow_up_flush_completes_the_batch
    (env1 env2 : Logger.FlushEnv) (st : Logger.LoggerState)
    (stor : Logger.LogStorage)
    (Hqueue : Logger.logQueue st ≠ [])
    (Hidle : Logger.isFlushing st = false)
    (Hok1 : Logger.get_ok env1 = true ∧ Logger.set_ok env1 = true)
    (Hok2 : Logger.get_ok env2 = true ∧ Logger.set_ok env2 = true)
    (Hlate : LogApi.logged_during (Logger.during env1) ≠ []) :
  let first := Logger.flushLogs env1 st stor in
  let second := Logger.flushLogs env2 first.1 first.2 in
  let all := default [] stor ++ Logger.logQueue st
             ++ LogApi.logged_during (Logger.during env1) in
  is_Some (Logger.flushTimeout first.1)
  ∧ second.2 = Some (drop (length all - 1000) all)
  ∧ second.2
    = (Logger.flushLogs env2
         (Logger.mkLogger
            (Logger.logQueue st ++ LogApi.logged_during (Logger.during env1))
            None false) stor).2.
Proof.
  cbv zeta. destruct Hok1 as [Hg1 Hs1], Hok2 as [Hg2 Hs2].
  destruct (flushLogs_idle env1 st stor Hqueue Hidle) as (Hstor1 & Hq1 & Hf1 & Ht1).
  split; [now apply Ht1|].
  assert (Hq1' : Logger.logQueue (Logger.flushLogs env1 st stor).1 ≠ [])
    by now rewrite Hq1.
  destruct (flushLogs_idle env2 _ (Logger.flushLogs env1 st stor).2 Hq1' Hf1)
    as (Hstor2 & _).
  assert (Hq : Logger.logQueue st ++ LogApi.logged_during (Logger.during env1) ≠ [])
    by (destruct (Logger.logQueue st); [contradiction|discriminate]).
  destruct (flushLogs_idle env2
              (Logger.mkLogger
                 (Logger.logQueue st ++ LogApi.logged_during (Logger.during env1))
                 None false) stor Hq eq_refl) as (Hone & _).
  rewrite Hone, Hstor2, Hstor1, Hq1. cbn [Logger.logQueue].
  unfold Logger.flushLogs_try. rewrite Hg1, Hs1, Hg2, Hs2. cbn [default].
  unfold id. rewrite trim_logs_append, <- app_assoc.
  split; [|reflexivity]. now rewrite trim_logs_is_suffix.
Qed.

Lemma follow_up_flush_completes_the_batch_witness :
  let a := Logger.mkCall 5 "content" "log" [Logger.ArgOther "scan"] in
  let late := Logger.mkCall 9 "content" "warn" [Logger.ArgOther "slow"] in
  let first := Logger.flushLogs (Logger.mkFlushEnv true true [Logger.ILog late] 12)
                 (Logger.xpnLogs [a] Logger.initial_logger) None in
  (Logger.flushLogs (Logger.mkFlushEnv true true [] 120) first.1 first.2).2
  = Some [Logger.mkEntry 5 "content" "log" "scan";
          Logger.mkEntry 9 "content" "warn" "slow"].
Proof.
  cbv zeta.
  destruct (follow_up_flush_completes_the_batch
              (Logger.mkFlushEnv true true
                 [Logger.ILog (Logger.mkCall 9 "content" "warn" [Logger.ArgOther "slow"])]
                 12)
              (Logger.mkFlushEnv true true [] 120)
              (Logger.xpnLogs
                 [Logger.mkCall 5 "content" "log" [Logger.ArgOther "scan"]]
                 Logger.initial_logger)
              None ltac:(discriminate) eq_refl (conj eq_refl eq_refl)
              (conj eq_refl eq_refl) ltac:(discriminate))
    as (_ & Hall & _).
  rewrite Hall. reflexivity.
Defined.

(* ===================================================================== *)
(** * Properties of the note button                                       *)
(* ===================================================================== *)

Section RenderFacts.
Import Render.

Lemma tier_class_cases avg :
  tier_class (colorTier avg) = "xpn-score-1"
  ∨ tier_class (colorTier avg) = "xpn-score-2"
  ∨ tier_class (colorTier avg) = "xpn-score-3"
  ∨ tier_class (colorTier avg) = "xpn-score-4"
  ∨ tier_class (colorTier avg) = "xpn-score-5".
Proof.
  assert (H : 1 ≤ colorTier avg ≤ 5) by (unfold colorTier; lia).
  assert (Hc : colorTier avg = 1 ∨ colorTier avg = 2 ∨ colorTier avg = 3
               ∨ colorTier avg = 4 ∨ colorTier avg = 5) by lia.
  destruct Hc as [->|[->|[->|[->| ->]]]]; vm_compute; auto 10.
Qed.

Lemma tier_class_is_score_class avg :
  tier_class (colorTier avg) ∈ score_classes
  ∧ tier_class (colorTier avg) ≠ "xpn-has-note"
  ∧ tier_class (colorTier avg) ≠ "xpn-note-btn".
Proof.
  unfold score_classes.
  destruct (tier_class_cases avg) as [->|[->|[->|[->| ->]]]];
    (split; [set_solver|split; discriminate]).
Qed.

Lemma has_score_is_score_class : "xpn-has-score" ∈ score_classes.
Proof. unfold score_classes. set_solver. Qed.

Lemma other_classes_not_score x :
  x = "xpn-has-note" ∨ x = "xpn-note-btn" → x ∉ score_classes.
Proof.
  unfold score_classes. intros [-> | ->]; set_unfold; intros H;
    repeat destruct H as [H|H]; discriminate.
Qed.

(** Membership in the class list of a refreshed button. *)
Lemma updateIndicator_classes cache b x :
  x ∈ classList (updateIndicator cache b) ↔
    match getAverageScore (data_username b) cache with
    | Some avg =>
        (x ∈ classList b ∧ x ∉ score_classes)
        ∨ x = "xpn-has-score" ∨ x = tier_class (colorTier avg)
    | None =>
        if hasNote (data_username b) cache
        then (x ∈ classList b ∧ x ∉ score_classes) ∨ x = "xpn-has-note"
        else (x ∈ classList b ∧ x ∉ score_classes) ∧ x ≠ "xpn-has-note"
    end.
Proof.
  unfold updateIndicator.
  destruct (getAverageScore _ cache) as [avg|]; cbn [classList].
  - set_unfold. tauto.
  - destruct (hasNote _ cache); cbn [classList]; set_unfold; tauto.
Qed.

Lemma updateIndicator_username cache b :
  data_username (updateIndicator cache b) = data_username b.
Proof.
  unfold updateIndicator. destruct (getAverageScore _ cache); [reflexivity|].
  now destruct (hasNote _ cache).
Qed.

Lemma updateIndicator_face_title cache b :
  face (updateIndicator cache b)
  = match getAverageScore (data_username b) cache with
    | Some avg => ScoreFace (displayScore avg)
    | None => IconFace
    end
  ∧ title (updateIndicator cache b)
    = match getAverageScore (data_username b) cache with
      | Some avg => TitleAvg (displayScore avg)
                      (length (getScores (data_username b) cache))
      | None => if hasNote (data_username b) cache then TitleView else TitleAdd
      end.
Proof.
  unfold updateIndicator. destruct (getAverageScore _ cache); [now split|].
  now destruct (hasNote _ cache).
Qed.

Lemma button_eq b1 b2 :
  data_username b1 = data_username b2 → classList b1 = classList b2 →
  face b1 = face b2 → title b1 = title b2 → b1 = b2.
Proof. destruct b1, b2; cbn. now intros -> -> -> ->. Qed.

Lemma updateIndicator_idempotent cache b :
  updateIndicator cache (updateIndicator cache b) = updateIndicator cache b.
Proof.
  apply button_eq.
  - now rewrite !updateIndicator_username.
  - apply set_eq. intros x.
    pose proof (updateIndicator_classes cache b x) as Hb.
    pose proof (updateIndicator_classes cache (updateIndicator cache b) x) as Hbb.
    rewrite updateIndicator_username in Hbb.
    destruct (getAverageScore (data_username b) cache) as [avg|].
    + destruct (tier_class_is_score_class avg) as (Ht & _).
      pose proof has_score_is_score_class as Hs.
      rewrite Hbb, Hb. split; [|tauto].
      intros [[[Ha|[Hx|Hx]] Hn]|[Hx|Hx]]; subst; tauto.
    + pose proof (other_classes_not_score "xpn-has-note" (or_introl eq_refl))
        as Hn.
      destruct (hasNote (data_username b) cache); rewrite Hbb, Hb.
      * split; [|tauto]. intros [[[Ha|Hx] Hx']|Hx]; subst; tauto.
      * tauto.
  - destruct (updateIndicator_face_title cache (updateIndicator cache b)) as [-> _].
    destruct (updateIndicator_face_title cache b) as [-> _].
    now rewrite updateIndicator_username.
  - destruct (updateIndicator_face_title cache (updateIndicator cache b)) as [_ ->].
    destruct (updateIndicator_face_title cache b) as [_ ->].
    now rewrite updateIndicator_username.
Qed.

Lemma createNoteButton_username u cache :
  data_username (createNoteButton u cache) = u.
Proof.
  unfold createNoteButton. destruct (getAverageScore u cache);
    destruct (hasNote u cache); reflexivity.
Qed.

Lemma createNoteButton_classes u cache x :
  x ∈ classList (createNoteButton u cache) ↔
    x = "xpn-note-btn"
    ∨ (∃ avg, getAverageScore u cache = Some avg
              ∧ (x = "xpn-has-score" ∨ x = tier_class (colorTier avg)))
    ∨ (hasNote u cache = true ∧ x = "xpn-has-note").
Proof.
  unfold createNoteButton.
  destruct (getAverageScore u cache) as [avg|]; destruct (hasNote u cache);
    cbn [classList]; set_unfold;
    (split;
     [ intros Hx; repeat (destruct Hx as [Hx|Hx]); eauto 10
     | intros [Hx|[(a & Ha & Hx)|[Hf Hx]]]; try discriminate;
       try (injection Ha as <-); tauto ]).
Qed.

Lemma createNoteButton_face_title u cache :
  face (createNoteButton u cache)
  = match getAverageScore u cache with
    | Some avg => ScoreFace (displayScore avg)
    | None => IconFace
    end
  ∧ title (createNoteButton u cache)
    = match getAverageScore u cache with
      | Some avg => TitleAvg (displayScore avg) (length (getScores u cache))
      | None => if hasNote u cache then TitleView else TitleAdd
      end.
Proof.
  unfold createNoteButton.
  destruct (getAverageScore u cache); destruct (hasNote u cache); now split.
Qed.

End RenderFacts.

(** X27: refreshing a button is idempotent.  A button created under any
    earlier collection and refreshed under the current one shows the same
    face and title as a button created now and carries the same classes,
    except possibly the has-note mark of a user who now has a score, which
    the refresh leaves as it was; for a user without score the refreshed
    button is the newly created one. *)
Theorem updateIndicator_matches_new_button
    (earlier cache : gmap string NoteData) (username : string) :
  let fresh := Render.createNoteButton username cache in
  let refreshed :=
    Render.updateIndicator cache (Render.createNoteButton username earlier) in
  (∀ b, Render.updateIndicator cache (Render.updateIndicator cache b)
        = Render.updateIndicator cache b)
  ∧ Render.data_username refreshed = username
  ∧ Render.face refreshed = Render.face fresh
  ∧ Render.title refreshed = Render.title fresh
  ∧ Render.classList refreshed ∖ {[ "xpn-has-note" ]}
    = Render.classList fresh ∖ {[ "xpn-has-note" ]}
  ∧ (getAverageScore username cache = None → refreshed = fresh).
Proof.
  cbv zeta.
  set (old := Render.createNoteButton username earlier).
  assert (Hu : Render.data_username old = username)
    by apply createNoteButton_username.
  destruct (updateIndicator_face_title cache old) as [Hface Htitle].
  destruct (createNoteButton_face_title username cache) as [Hface' Htitle'].
  rewrite Hu in Hface, Htitle.
  assert (Hold : ∀ x, x ∈ Render.classList old ∧ x ∉ Render.score_classes ↔
                      x = "xpn-note-btn"
                      ∨ (hasNote username earlier = true ∧ x = "xpn-has-note")).
  { intros x. unfold old. rewrite createNoteButton_classes.
    pose proof (other_classes_not_score x) as Hother.
    pose proof has_score_is_score_class as Hhs.
    split.
    - intros [[->|[(avg & _ & [-> | ->])|H]] Hn]; auto.
      + contradiction.
      + destruct (tier_class_is_score_class avg) as (Ht & _). contradiction.
    - intros [->|[H ->]]; split; auto. }
  split; [apply updateIndicator_idempotent|].
  split; [now rewrite updateIndicator_username|].
  split; [now rewrite Hface, Hface'|].
  split; [now rewrite Htitle, Htitle'|].
  split.
  - apply set_eq. intros x. rewrite !elem_of_difference, !elem_of_singleton.
    rewrite updateIndicator_classes, createNoteButton_classes, Hu.
    destruct (getAverageScore username cache) as [avg|] eqn:Havg.
    + destruct (tier_class_is_score_class avg) as (_ & Hne & _).
      setoid_rewrite Hold. split.
      * intros [[[->|[_ ->]]|[-> | ->]] Hn]; try contradiction;
          (split; [|exact Hn]); eauto 10.
      * intros [[->|[(a & [= <-] & [-> | ->])|[_ ->]]] Hn]; try contradiction;
          (split; [|exact Hn]); auto.
    + destruct (hasNote username cache) eqn:Hn'; setoid_rewrite Hold.
      * split.
        -- intros [[[->|[_ ->]]| ->] Hn]; try contradiction. split; auto.
        -- intros [[->|[(a & Ha & _)|[_ ->]]] Hn]; try discriminate;
             try contradiction. split; auto.
      * split.
        -- intros [[[->|[_ ->]] Hne] Hn]; try contradiction. split; auto.
        -- intros [[->|[(a & Ha & _)|[Hf _]]] Hn]; try discriminate.
           split; [|exact Hn]. split; [auto|discriminate].
  - intros Havg. apply button_eq.
    + now rewrite updateIndicator_username, createNoteButton_username.
    + apply set_eq. intros x.
      rewrite updateIndicator_classes, createNoteButton_classes, Hu, Havg.
      destruct (hasNote username cache) eqn:Hn'; setoid_rewrite Hold.
      * split.
        -- intros [[->|[_ ->]]| ->]; auto.
        -- intros [->|[(a & Ha & _)|[_ ->]]]; try discriminate; auto.
      * split.
        -- intros [[->|[_ ->]] Hne]; [auto|contradiction].
        -- intros [->|[(a & Ha & _)|[Hf _]]]; try discriminate.
           split; [auto|discriminate].
    + now rewrite Hface, Hface'.
    + now rewrite Htitle, Htitle'.
Qed.

Lemma updateIndicator_matches_new_button_witness :
  let earlier := notesCache
                   (run_store_ops
                      [DoSaveNote (mkEnv 10 10 true) "Peggy" "" (Some 4)]
                      initial_content) in
  getAverageScore "Peggy" ∅ = None
  ∧ Render.updateIndicator ∅ (Render.createNoteButton "Peggy" earlier)
    = Render.createNoteButton "Peggy" ∅.
Proof.
  cbv zeta.
  assert (Hnone : getAverageScore "Peggy" ∅ = None) by reflexivity.
  split; [exact Hnone|].
  destruct (updateIndicator_matches_new_button
              (notesCache
                 (run_store_ops
                    [DoSaveNote (mkEnv 10 10 true) "Peggy" "" (Some 4)]
                    initial_content))
              ∅ "Peggy") as (_ & _ & _ & _ & _ & Hsame).
  exact (Hsame Hnone).
Defined.
